(** * ntfy_to_sip: a shallow embedding of the ntfy -> SIP bridge

    The development follows [ntfy_to_sip.py]: the AMI command serializer
    [_ami_line], the [AMIClient] class (connect / close / _send /
    _read_until_blank / originate_simple), the SSE subscriber
    [subscribe_ntfy], the dispatcher [handle_ntfy_msg] and the supervisor
    loop [main].

    Conventions.
    - Python [bytes] and [str] are both Rocq [string]s (lists of 8-bit
      characters): a [str] is held in its UTF-8 encoding, so that
      [str.encode()] is the identity on the representation.
    - Effects (sockets, HTTP stream, logging, sleeping) are made explicit:
      the program runs in a state-and-exception monad [ST] over a [world]
      that holds the scripted behaviour of the network and the trace of
      the effects performed so far.
    - Exceptions are values of type [exn]; every class modelled derives
      from Python's [Exception], which is what the socket module, aiohttp,
      [int()] and [json.loads] raise. [KeyboardInterrupt], [SystemExit]
      and the cancellation of the task are not exceptions of the program:
      they are how the process is stopped from outside, and they are left
      out.
    - The network is scripted and finite: a socket delivers a list of
      results and then nothing (the next [recv] runs into the 10 s
      timeout); a streaming response delivers a list of lines and then
      ends or fails. *)

From Stdlib Require Import ZArith QArith List String Ascii Bool Lia DecimalString.
Import ListNotations.
Open Scope string_scope.
Open Scope Z_scope.

(* ===================================================================== *)
(** * Bytes and text helpers *)
(* ===================================================================== *)

Module Py.

Definition CR : ascii := "013"%char.
Definition LF : ascii := "010"%char.
Definition CRLF : string := String CR (String LF EmptyString).
(** b"\r\n\r\n" *)
Definition BLANK : string := CRLF ++ CRLF.

Definition squote : ascii := "039"%char.
Definition dquote : ascii := "034"%char.
Definition backslash : ascii := "092"%char.

(** [sep.join(parts)] *)
Definition join (sep : string) (parts : list string) : string :=
  String.concat sep parts.

(** [s.startswith(p)] *)
Definition startswith (s p : string) : bool := String.prefix p s.

(** [sub in s] on bytes / str *)
Fixpoint contains (sub s : string) : bool :=
  String.prefix sub s ||
  match s with
  | EmptyString => false
  | String _ s' => contains sub s'
  end.

(** [s[n:]] for [0 <= n] *)
Fixpoint drop (n : nat) (s : string) : string :=
  match n, s with
  | O, _ => s
  | S _, EmptyString => EmptyString
  | S k, String _ s' => drop k s'
  end.

Fixpoint rev_acc (s acc : string) : string :=
  match s with
  | EmptyString => acc
  | String c s' => rev_acc s' (String c acc)
  end.
Definition rev (s : string) : string := rev_acc s EmptyString.

(** [str(z)] for an [int] *)
Definition str_of_int (z : Z) : string := NilZero.string_of_int (Z.to_int z).

(** ** Whitespace, as [str.strip()] sees it on UTF-8 encoded text.
    Python's whitespace characters are U+0009..U+000D, U+001C..U+001F,
    U+0020, U+0085, U+00A0, U+1680, U+2000..U+200A, U+2028, U+2029,
    U+202F, U+205F and U+3000. *)
Definition is_space1 (c : ascii) : bool :=
  let n := nat_of_ascii c in
  ((9 <=? n) && (n <=? 13) || (28 <=? n) && (n <=? 32))%nat.

(** length in bytes of the whitespace character the text starts with,
    [0] when it starts with none *)
Definition space_prefix (s : string) : nat :=
  match s with
  | EmptyString => 0
  | String c1 r1 =>
      if is_space1 c1 then 1
      else match r1 with
      | EmptyString => 0
      | String c2 r2 =>
          let n1 := nat_of_ascii c1 in
          let n2 := nat_of_ascii c2 in
          if ((n1 =? 194) && ((n2 =? 133) || (n2 =? 160)))%nat then 2
          else match r2 with
          | EmptyString => 0
          | String c3 _ =>
              let n3 := nat_of_ascii c3 in
              if ((n1 =? 225) && (n2 =? 154) && (n3 =? 128)
                  || (n1 =? 226) && (n2 =? 128)
                     && ((128 <=? n3) && (n3 <=? 138) || (n3 =? 168)
                         || (n3 =? 169) || (n3 =? 175))
                  || (n1 =? 226) && (n2 =? 129) && (n3 =? 159)
                  || (n1 =? 227) && (n2 =? 128) && (n3 =? 128))%nat
              then 3 else 0
          end
      end
  end%nat.

(** the same, read from the end: the argument is the reversed text *)
Definition space_suffix_rev (r : string) : nat :=
  match r with
  | EmptyString => 0
  | String c1 r1 =>
      if is_space1 c1 then 1
      else match r1 with
      | EmptyString => 0
      | String c2 r2 =>
          if (2 =? space_prefix (String c2 (String c1 EmptyString)))%nat then 2
          else match r2 with
          | EmptyString => 0
          | String c3 _ =>
              if (3 =? space_prefix
                         (String c3 (String c2 (String c1 EmptyString))))%nat
              then 3 else 0
          end
      end
  end%nat.

Fixpoint lstrip_fuel (fuel : nat) (s : string) : string :=
  match fuel with
  | O => s
  | S k => match space_prefix s with
           | O => s
           | n => lstrip_fuel k (drop n s)
           end
  end.
Definition lstrip (s : string) : string := lstrip_fuel (String.length s) s.

Fixpoint rstrip_rev_fuel (fuel : nat) (r : string) : string :=
  match fuel with
  | O => r
  | S k => match space_suffix_rev r with
           | O => r
           | n => rstrip_rev_fuel k (drop n r)
           end
  end.
Definition rstrip (s : string) : string :=
  rev (rstrip_rev_fuel (String.length s) (rev s)).

(** [s.strip()] *)
Definition strip (s : string) : string := rstrip (lstrip s).

(** [s.rstrip("/")] *)
Fixpoint rstrip_slash_rev (r : string) : string :=
  match r with
  | String "/"%char r' => rstrip_slash_rev r'
  | _ => r
  end.
Definition rstrip_slash (s : string) : string := rev (rstrip_slash_rev (rev s)).

(** ** [repr] of a [bytes] object *)
Definition hex_digit (n : nat) : ascii :=
  ascii_of_nat (if (n <? 10)%nat then 48 + n else 87 + n).

Fixpoint has_char (c : ascii) (s : string) : bool :=
  match s with
  | EmptyString => false
  | String d s' => Ascii.eqb c d || has_char c s'
  end.

Fixpoint repr_body (quote : ascii) (s : string) : string :=
  match s with
  | EmptyString => EmptyString
  | String c s' =>
      let n := nat_of_ascii c in
      (if Ascii.eqb c quote || Ascii.eqb c backslash
       then String backslash (String c EmptyString)
       else if (n =? 9)%nat then String backslash "t"
       else if (n =? 10)%nat then String backslash "n"
       else if (n =? 13)%nat then String backslash "r"
       else if ((n <? 32) || (127 <=? n))%nat
       then String backslash
              (String "x" (String (hex_digit (n / 16))
                             (String (hex_digit (n mod 16)) EmptyString)))
       else String c EmptyString)
      ++ repr_body quote s'
  end.

Definition bytes_repr (s : string) : string :=
  let quote := if has_char squote s && negb (has_char dquote s)
               then dquote else squote in
  String "b" (String quote (repr_body quote s ++ String quote EmptyString)).

End Py.

(* ===================================================================== *)
(** * Exceptions *)
(* ===================================================================== *)

(** What a socket operation fails with: [OSError] and its subclasses
    ([socket.timeout] is [TimeoutError]). *)
Inductive oserror : Type :=
| ConnectionRefusedError
| ConnectionResetError
| BrokenPipeError
| TimeoutError
| OtherOSError (errno : Z).

Inductive exn : Type :=
| OSError (e : oserror)
| RuntimeError (msg : string)
| ValueError (msg : string)
| JSONDecodeError (msg : string)      (* a subclass of ValueError *)
| TypeError (msg : string)
| AttributeError (msg : string)
| OverflowError (msg : string)
| ClientError (msg : string)          (* aiohttp.ClientError and subclasses *)
| OtherException (name msg : string).

(** [except aiohttp.ClientError] *)
Definition is_ClientError (e : exn) : bool :=
  match e with ClientError _ => true | _ => false end.

(** [except json.JSONDecodeError] *)
Definition is_JSONDecodeError (e : exn) : bool :=
  match e with JSONDecodeError _ => true | _ => false end.

(** [except Exception] *)
Definition is_Exception (e : exn) : bool := true.

(* ===================================================================== *)
(** * The AMI command serializer *)
(* ===================================================================== *)

(** A value written into a command dictionary: the code puts [str]s and,
    for [Priority] and [Timeout], [int]s. *)
Inductive field_value : Type :=
| VStr (s : string)
| VInt (z : Z).

(** [f"{v}"] *)
Definition format_value (v : field_value) : string :=
  match v with
  | VStr s => s
  | VInt z => Py.str_of_int z
  end.

(** A command dictionary, as [cmd_dict.items()] yields it: the pairs in
    insertion order. *)
Definition cmd_dict : Type := list (string * field_value).

(** [f"{k}: {v}"] *)
Definition render_field (kv : string * field_value) : string :=
  fst kv ++ ": " ++ format_value (snd kv).

(** [_ami_line]:
    ["\r\n".join(f"{k}: {v}" for k, v in cmd_dict.items()) + "\r\n\r\n"]
    then [.encode()]. *)
Definition _ami_line (d : cmd_dict) : string :=
  Py.join Py.CRLF (map render_field d) ++ Py.BLANK.

(** The serialization rule in the specification's words: the fields one per
    line, each line ended by CRLF, and one more CRLF for the blank line. *)
Fixpoint command_block_lines (d : cmd_dict) : string :=
  match d with
  | [] => EmptyString
  | kv :: rest => render_field kv ++ Py.CRLF ++ command_block_lines rest
  end.

Definition command_block (d : cmd_dict) : string :=
  command_block_lines d ++ Py.CRLF.

(* ===================================================================== *)
(** * JSON values and [int()] *)
(* ===================================================================== *)

(** A Python [float]: a finite value (every double is a rational), an
    infinity or a NaN ([json.loads] accepts [Infinity] and [NaN]). *)
Inductive pyfloat : Type :=
| FFinite (q : Q)
| FInf (negative : bool)
| FNan.

(** What [json.loads] returns. A JSON object becomes a [dict]: its items
    in insertion order, keys distinct. *)
#[warning="-register-all"]
Inductive json : Type :=
| JNull
| JBool (b : bool)
| JInt (z : Z)
| JFloat (f : pyfloat)
| JStr (s : string)
| JArr (elems : list json)
| JObj (items : list (string * json)).

Inductive result (A : Type) : Type :=
| Ok (a : A)
| Raise (e : exn).
Arguments Ok {A} a.
Arguments Raise {A} e.

Fixpoint dict_lookup (k : string) (items : list (string * json)) : option json :=
  match items with
  | [] => None
  | (k', v) :: rest => if String.eqb k k' then Some v else dict_lookup k rest
  end.

(** [msg.get(k, default)]; only a [dict] has the method. *)
Definition msg_get (msg : json) (k : string) (default : json) : result json :=
  match msg with
  | JObj items =>
      Ok (match dict_lookup k items with Some v => v | None => default end)
  | _ => Raise (AttributeError "object has no attribute 'get'")
  end.

(** ** [int(s)] for a [str]

    CPython converts a [str] in two steps. The text is first brought to
    ASCII: a character below U+007F is kept, a Unicode whitespace character
    becomes a space, a Unicode decimal digit becomes the ASCII digit of its
    value, and anything else makes the conversion fail. The ASCII text is
    then read as an integer literal in base 10: C whitespace around it, an
    optional sign, and digits that single underscores may separate. *)

(** The code points of the digit zero of every run of ten decimal digits
    (Unicode 14.0, the character database of CPython 3.11). *)
Definition decimal_zeros : list Z :=
  [1632; 1776; 1984; 2406; 2534; 2662; 2790; 2918; 3046; 3174; 3302; 3430;
   3558; 3664; 3792; 3872; 4160; 4240; 6112; 6160; 6470; 6608; 6784; 6800;
   6992; 7088; 7232; 7248; 42528; 43216; 43264; 43472; 43504; 43600; 44016;
   65296; 66720; 68912; 69734; 69872; 69942; 70096; 70384; 70736; 70864;
   71248; 71360; 71472; 71904; 72016; 72784; 73040; 73120; 92768; 92864;
   93008; 120782; 120792; 120802; 120812; 120822; 123200; 123632; 125264;
   130032].

(** [Py_UNICODE_TODECIMAL] above ASCII *)
Definition unicode_decimal (cp : Z) : option Z :=
  option_map (fun zero => cp - zero)
             (find (fun zero => (zero <=? cp) && (cp <? zero + 10)) decimal_zeros).

(** [Py_UNICODE_ISSPACE] above ASCII *)
Definition unicode_space (cp : Z) : bool :=
  (cp =? 133) || (cp =? 160) || (cp =? 5760)
  || (8192 <=? cp) && (cp <=? 8202)
  || (cp =? 8232) || (cp =? 8233) || (cp =? 8239) || (cp =? 8287)
  || (cp =? 12288).

(** The ASCII character a code point is brought to, if any. *)
Definition ascii_of_code_point (cp : Z) : option ascii :=
  if cp <? 127 then Some (ascii_of_nat (Z.to_nat cp))
  else if unicode_space cp then Some " "%char
  else option_map (fun d => ascii_of_nat (Z.to_nat (48 + d))) (unicode_decimal cp).

(** The first step, on the UTF-8 encoding: [need] continuation bytes are
    still to come for the code point begun, whose bits so far are [acc]. *)
Fixpoint to_ascii (need : nat) (acc : Z) (s : string) : option string :=
  match s with
  | EmptyString => match need with O => Some EmptyString | S _ => None end
  | String c r =>
      let b := Z.of_nat (nat_of_ascii c) in
      match need with
      | O =>
          if b <? 128 then
            match ascii_of_code_point b with
            | Some a => option_map (String a) (to_ascii 0 0 r)
            | None => None
            end
          else if (194 <=? b) && (b <=? 223) then to_ascii 1 (b - 192) r
          else if (224 <=? b) && (b <=? 239) then to_ascii 2 (b - 224) r
          else if (240 <=? b) && (b <=? 244) then to_ascii 3 (b - 240) r
          else None
      | S k =>
          if (128 <=? b) && (b <=? 191) then
            let cp := 64 * acc + (b - 128) in
            match k with
            | O =>
                if cp <? 128 then None
                else match ascii_of_code_point cp with
                     | Some a => option_map (String a) (to_ascii 0 0 r)
                     | None => None
                     end
            | S _ => to_ascii k cp r
            end
          else None
      end
  end.

(** [Py_ISSPACE] *)
Definition is_c_space (c : ascii) : bool :=
  let n := nat_of_ascii c in
  ((9 <=? n) && (n <=? 13) || (n =? 32))%nat.

Fixpoint skip_c_spaces (s : string) : string :=
  match s with
  | String c r => if is_c_space c then skip_c_spaces r else s
  | EmptyString => s
  end.

Definition digit_val (c : ascii) : option Z :=
  let n := nat_of_ascii c in
  if ((48 <=? n) && (n <=? 57))%nat then Some (Z.of_nat (n - 48)) else None.

(** The run of digits and single underscores the text starts with: its
    value, the number of its digits and what follows it; [None] when two
    underscores meet or the run ends with one. *)
Fixpoint scan_digits (acc : Z) (digits : nat) (after_underscore : bool)
    (s : string) : option (Z * nat * string) :=
  match s with
  | EmptyString => if after_underscore then None else Some (acc, digits, s)
  | String c r =>
      match digit_val c with
      | Some d => scan_digits (10 * acc + d) (S digits) false r
      | None =>
          if Ascii.eqb c "_"%char
          then if after_underscore then None else scan_digits acc digits true r
          else if after_underscore then None else Some (acc, digits, s)
      end
  end.

(** What [int(s)] comes to. *)
Inductive int_outcome : Type :=
| IntValue (z : Z)
| IntInvalid
| IntTooLong (digits : nat).

(** The limit on the digits of a literal, [sys.get_int_max_str_digits()];
    the program leaves it at the interpreter's default. *)
Definition int_max_str_digits : nat := 4300.

(** [PyLong_FromString(s, base=10)] on ASCII text *)
Definition parse_long (s : string) : int_outcome :=
  let s1 := skip_c_spaces s in
  let signed :=
    match s1 with
    | String "+"%char r => (false, r)
    | String "-"%char r => (true, r)
    | _ => (false, s1)
    end in
  match snd signed with
  | String "_"%char _ => IntInvalid
  | body =>
      match scan_digits 0 0 false body with
      | None => IntInvalid
      | Some (z, digits, rest) =>
          if (int_max_str_digits <? digits)%nat then IntTooLong digits
          else if (digits =? 0)%nat then IntInvalid
          else match skip_c_spaces rest with
               | EmptyString => IntValue (if fst signed then - z else z)
               | String _ _ => IntInvalid
               end
      end
  end.

Definition int_outcome_of_str (s : string) : int_outcome :=
  match to_ascii 0 0 s with
  | Some a => parse_long a
  | None => IntInvalid
  end.

(** The value of [int(s)], [None] when it raises [ValueError]. *)
Definition int_of_str (s : string) : option Z :=
  match int_outcome_of_str s with
  | IntValue z => Some z
  | IntInvalid | IntTooLong _ => None
  end.

(** The message of the [ValueError] for a literal of too many digits. *)
Definition digits_limit_message (digits : nat) : string :=
  "Exceeds the limit (4300 digits) for integer string conversion: value has "
  ++ Py.str_of_int (Z.of_nat digits)
  ++ " digits; use sys.set_int_max_str_digits() to increase the limit".

(** [int(v)] *)
Definition py_int (v : json) : result Z :=
  match v with
  | JInt z => Ok z
  | JBool b => Ok (if b then 1 else 0)
  | JFloat (FFinite q) => Ok (Z.quot (Qnum q) (Zpos (Qden q)))
  | JFloat (FInf _) => Raise (OverflowError "cannot convert float infinity to integer")
  | JFloat FNan => Raise (ValueError "cannot convert float NaN to integer")
  | JStr s =>
      match int_outcome_of_str s with
      | IntValue z => Ok z
      | IntInvalid => Raise (ValueError "invalid literal for int() with base 10")
      | IntTooLong digits => Raise (ValueError (digits_limit_message digits))
      end
  | JNull | JArr _ | JObj _ =>
      Raise (TypeError "int() argument must be a string, a bytes-like object or a real number")
  end.

(* ===================================================================== *)
(** * The outside world *)
(* ===================================================================== *)

(** Module-level configuration, read once from the environment. *)
Record config : Type := {
  NTFY_URL : string;
  NTFY_TOPIC : string;
  NTFY_AUTH : string;
  EXTENSION : string;
  CALLERID : string;
  AMI_HOST : string;
  AMI_PORT : Z;
  AMI_USER : string;
  AMI_PASS : string;
  CHANNEL_TECH : string;
  DIAL_STRING : string;
  CONTEXT : string;
  PRIORITY : Z;
  TIMEOUT_MS : Z
}.

(** One [sock.recv(4096)]: the bytes received, at most 4096 of them
    ([b""] when the peer has closed), or the error raised. Nothing below
    depends on the bound. *)
Inductive recv_result : Type :=
| RecvData (data : string)
| RecvError (e : oserror).

(** A connected socket, with what the peer and the network will do to it:
    the results of the successive [recv]s (once they are used up nothing
    more arrives and a [recv] times out), of the successive [sendall]s
    (once used up, they succeed) and of [close]. *)
Record socket : Type := {
  sock_recvs : list recv_result;
  sock_sends : list (option oserror);
  sock_close_error : option oserror
}.

(** What one [socket.create_connection] meets: the attempt fails with an
    exception, or gives a connected socket. The failure is an [OSError]
    when the network or the resolver refuses (connection refused, timeout,
    [socket.gaierror]), and it is of another class when the address itself
    is rejected: [OverflowError] for a port that is no C integer or lies
    outside 0..65535, [UnicodeError] for a host name that is no valid
    label. Which of these an address meets is left to the world. *)
Inductive peer : Type :=
| Refuses (e : exn)
| Accepts (s : socket).

(** How the body of a streaming response ends. *)
Inductive stream_end : Type :=
| EndOfStream
| StreamError (e : exn).

(** What one [session.get(sse_url)] meets. *)
Inductive http_attempt : Type :=
| GetFails (e : exn)
| Response (status : Z) (lines : list string) (ending : stream_end).

Inductive level : Type := DEBUG | INFO | WARNING | ERROR.

(** The log records the program writes (their text is formatting). *)
Inductive logrec : Type :=
| LogSubscribing (url : string)
| LogNtfyMessage (prio : Z) (title body : json)
| LogHighPriority
| LogOriginateSent
| LogOriginateFailed (exc : exn)
| LogNonJson (payload : string)
| LogSseError (err : exn)
| LogUnexpected (err : exn).

(** Observable effects, in the order performed. Each is recorded when the
    call is made, whether it then succeeds or fails. *)
Inductive event : Type :=
| EvConnect (host : string) (port : Z)   (* socket.create_connection *)
| EvRecv                                 (* sock.recv(4096) *)
| EvSetTimeout (secs : Z)                (* sock.settimeout *)
| EvSend (data : string)                 (* sock.sendall(data) *)
| EvSockClose                            (* sock.close() *)
| EvHttpGet (url : string)               (* session.get(url) *)
| EvLog (lvl : level) (r : logrec)       (* logging.* *)
| EvSleep (secs : Z).                    (* asyncio.sleep(secs) *)

Record world : Type := {
  net : list peer;             (* the connections to come *)
  http : list http_attempt;    (* the subscriptions to come *)
  trace : list event
}.

(** The [AMIClient] object. *)
Record AMIClient : Type := {
  host : string;
  port : Z;
  username : string;
  secret : string;
  sock : option socket
}.

(* ===================================================================== *)
(** * State and exceptions *)
(* ===================================================================== *)

Definition ST (S A : Type) : Type := S -> result A * S.

Definition ret {S A} (a : A) : ST S A := fun s => (Ok a, s).

Definition bind {S A B} (m : ST S A) (k : A -> ST S B) : ST S B :=
  fun s => match m s with
           | (Ok a, s') => k a s'
           | (Raise e, s') => (Raise e, s')
           end.

Definition raise {S A} (e : exn) : ST S A := fun s => (Raise e, s).

Definition lift_result {S A} (r : result A) : ST S A := fun s => (r, s).

Declare Scope st_scope.
Delimit Scope st_scope with st.
Notation "x <- m ;; k" := (bind m (fun x => k))
  (at level 61, m at next level, right associativity) : st_scope.
Notation "m ;; k" := (bind m (fun _ => k))
  (at level 61, right associativity) : st_scope.
Open Scope st_scope.

(** [try: body  except <clauses>]: [handler e] is the clause that matches
    [e], if one does. *)
Definition try_except {S A} (body : ST S A) (handler : exn -> option (ST S A))
  : ST S A :=
  fun s => match body s with
           | (Ok a, s') => (Ok a, s')
           | (Raise e, s') =>
               match handler e with
               | Some h => h s'
               | None => (Raise e, s')
               end
           end.

(** [try: body  finally: fin]: [fin] always runs; an exception of [fin]
    replaces the outcome of [body]. *)
Definition try_finally {S A} (body : ST S A) (fin : ST S unit) : ST S A :=
  fun s => match body s with
           | (r, s') =>
               match fin s' with
               | (Ok _, s'') => (r, s'')
               | (Raise e, s'') => (Raise e, s'')
               end
           end.

(** [except Exception] *)
Definition except_Exception {S A} (h : exn -> ST S A) : exn -> option (ST S A) :=
  fun e => if is_Exception e then Some (h e) else None.

(** ** Primitive effects *)

Definition emit (ev : event) : ST world unit :=
  fun w => (Ok tt, {| net := net w; http := http w; trace := trace w ++ [ev] |}).

Definition log (lvl : level) (r : logrec) : ST world unit := emit (EvLog lvl r).

(** [asyncio.sleep(secs)] *)
Definition sleep (secs : Z) : ST world unit := emit (EvSleep secs).

(** Running world-level code inside a method. *)
Definition in_world {A} (m : ST world A) : ST (AMIClient * world) A :=
  fun s => match m (snd s) with (r, w') => (r, (fst s, w')) end.

(** Running the methods of a fresh object. *)
Definition with_object {A} (obj : AMIClient) (m : ST (AMIClient * world) A)
  : ST world A :=
  fun w => match m (obj, w) with (r, s') => (r, snd s') end.

Definition get_sock : ST (AMIClient * world) (option socket) :=
  fun s => (Ok (sock (fst s)), s).

(** The object [self] once [self.sock = v] has run. *)
Definition with_sock (self : AMIClient) (v : option socket) : AMIClient :=
  {| host := host self; port := port self;
     username := username self; secret := secret self; sock := v |}.

(** [self.sock = v] *)
Definition set_sock (v : option socket) : ST (AMIClient * world) unit :=
  fun s => (Ok tt, (with_sock (fst s) v, snd s)).

Definition get_self : ST (AMIClient * world) AMIClient :=
  fun s => (Ok (fst s), s).

(** [socket.create_connection((host, port), timeout=10)] *)
Definition create_connection (h : string) (p : Z) : ST world socket :=
  fun w =>
    let w' := {| net := tl (net w); http := http w;
                 trace := trace w ++ [EvConnect h p] |} in
    match net w with
    | Accepts s :: _ => (Ok s, w')
    | Refuses e :: _ => (Raise e, w')
    | [] => (Raise (OSError ConnectionRefusedError), w')
    end.

(** [sk.recv(4096)]: the result and the socket afterwards. *)
Definition sock_recv (sk : socket) : result string * socket :=
  let sk' := {| sock_recvs := tl (sock_recvs sk); sock_sends := sock_sends sk;
                sock_close_error := sock_close_error sk |} in
  match sock_recvs sk with
  | RecvData data :: _ => (Ok data, sk')
  | RecvError e :: _ => (Raise (OSError e), sk')
  | [] => (Raise (OSError TimeoutError), sk')
  end.

(** [sk.sendall(data)] *)
Definition sock_sendall (sk : socket) : result unit * socket :=
  let sk' := {| sock_recvs := sock_recvs sk; sock_sends := tl (sock_sends sk);
                sock_close_error := sock_close_error sk |} in
  match sock_sends sk with
  | Some e :: _ => (Raise (OSError e), sk')
  | _ => (Ok tt, sk')
  end.

(** The object behind [self.sock], for a method call on it. *)
Definition the_sock : ST (AMIClient * world) socket :=
  s <- get_sock ;;
  match s with
  | Some sk => ret sk
  | None => raise (AttributeError "'NoneType' object has no such attribute")
  end.

(** [self.sock.recv(4096)] *)
Definition recv : ST (AMIClient * world) string :=
  sk <- the_sock ;;
  in_world (emit EvRecv) ;;
  set_sock (Some (snd (sock_recv sk))) ;;
  lift_result (fst (sock_recv sk)).

(** [self.sock.sendall(data)] *)
Definition sendall (data : string) : ST (AMIClient * world) unit :=
  sk <- the_sock ;;
  in_world (emit (EvSend data)) ;;
  set_sock (Some (snd (sock_sendall sk))) ;;
  lift_result (fst (sock_sendall sk)).

(** [self.sock.settimeout(secs)] *)
Definition settimeout (secs : Z) : ST (AMIClient * world) unit :=
  _ <- the_sock ;;
  in_world (emit (EvSetTimeout secs)).

(** [self.sock.close()] *)
Definition sock_close : ST (AMIClient * world) unit :=
  sk <- the_sock ;;
  in_world (emit EvSockClose) ;;
  match sock_close_error sk with
  | Some e => raise (OSError e)
  | None => ret tt
  end.

(* ===================================================================== *)
(** * class AMIClient *)
(* ===================================================================== *)

(** [AMIClient(host, port, username, secret)] *)
Definition AMIClient_init (h : string) (p : Z) (user pass : string) : AMIClient :=
  {| host := h; port := p; username := user; secret := pass; sock := None |}.

(** [_send] *)
Definition _send (cmd : cmd_dict) : ST (AMIClient * world) unit :=
  s <- get_sock ;;
  match s with
  | None => raise (RuntimeError "AMI connection not open")
  | Some _ => sendall (_ami_line cmd)
  end.

(** The [while True] loop of [_read_until_blank]. Each turn is one [recv];
    [fuel] bounds the number of further turns, and the number of results
    the socket still has to deliver is enough ([read_loop_fuel]): past
    them a [recv] times out. *)
Fixpoint read_loop (fuel : nat) (chunks : list string)
  : ST (AMIClient * world) (list string) :=
  data <- recv ;;
  if String.eqb data EmptyString then ret chunks
  else
    let chunks' := (chunks ++ [data])%list in
    if Py.contains Py.BLANK data then ret chunks'
    else match fuel with
         | O => raise (OSError TimeoutError)
         | S fuel' => read_loop fuel' chunks'
         end.

(** [_read_until_blank] *)
Definition _read_until_blank : ST (AMIClient * world) string :=
  s <- get_sock ;;
  match s with
  | None => raise (RuntimeError "AMI connection not open")
  | Some sk =>
      settimeout 10 ;;
      chunks <- read_loop (List.length (sock_recvs sk)) [] ;;
      ret (Py.join EmptyString chunks)
  end.

(** The dictionary [connect] sends. *)
Definition login_action (user pass : string) : cmd_dict :=
  [("Action", VStr "Login");
   ("Username", VStr user);
   ("Secret", VStr pass);
   ("Events", VStr "off")].

(** [connect], first part: open the connection, read and drop the banner,
    send the login block. *)
Definition connect_login : ST (AMIClient * world) unit :=
  self <- get_self ;;
  sk <- in_world (create_connection (host self) (port self)) ;;
  set_sock (Some sk) ;;
  _ <- recv ;;
  _send (login_action (username self) (secret self)).

(** [connect], second part: the check of the login response. *)
Definition check_login (response : string) : ST (AMIClient * world) unit :=
  if negb (Py.contains "Success" response)
  then raise (RuntimeError ("AMI login failed: " ++ Py.bytes_repr response))
  else ret tt.

(** [connect] *)
Definition connect : ST (AMIClient * world) unit :=
  connect_login ;;
  response <- _read_until_blank ;;
  check_login response.

(** [close] *)
Definition close : ST (AMIClient * world) unit :=
  try_finally
    (try_except
       (s <- get_sock ;;
        match s with
        | Some _ => _send [("Action", VStr "Logoff")]
        | None => ret tt
        end)
       (except_Exception (fun _ => ret tt)))
    (s <- get_sock ;;
     match s with
     | Some _ => try_finally sock_close (set_sock None)
     | None => ret tt
     end).

(** The dictionary [originate_simple] builds. *)
Definition originate_action (channel exten context : string) (priority : Z)
    (callerid : string) (timeout_ms : Z) : cmd_dict :=
  [("Action", VStr "Originate");
   ("Channel", VStr channel);
   ("Context", VStr context);
   ("Exten", VStr exten);
   ("Priority", VInt priority);
   ("CallerID", VStr callerid);
   ("Timeout", VInt timeout_ms);
   ("Async", VStr "true")].

(** [originate_simple] *)
Definition originate_simple (channel exten context : string) (priority : Z)
    (callerid : string) (timeout_ms : Z) : ST (AMIClient * world) unit :=
  _send (originate_action channel exten context priority callerid timeout_ms) ;;
  _ <- _read_until_blank ;;
  ret tt.

(* ===================================================================== *)
(** * Dispatcher, subscriber and supervisor loop *)
(* ===================================================================== *)

Section Bridge.

(** The module-level constants. *)
Variable cfg : config.

(** Two functions of Python's standard library are taken as given:
    [bytes.decode("utf-8", "ignore")], which never fails, and
    [json.loads], which returns a value or raises. *)
Variable decode_utf8_ignore : string -> string.
Variable json_loads : string -> result json.

(** The [try] statement of a dispatch, on the client [ami]. *)
Definition dispatch_call : ST (AMIClient * world) unit :=
  connect ;;
  originate_simple (DIAL_STRING cfg) (EXTENSION cfg) (CONTEXT cfg)
                   (PRIORITY cfg) (CALLERID cfg) (TIMEOUT_MS cfg) ;;
  in_world (log INFO LogOriginateSent).

Definition dispatch : ST (AMIClient * world) unit :=
  try_finally
    (try_except
       dispatch_call
       (except_Exception (fun exc => in_world (log ERROR (LogOriginateFailed exc)))))
    (try_except close (except_Exception (fun _ => ret tt))).

(** [handle_ntfy_msg] *)
Definition handle_ntfy_msg (msg : json) : ST world unit :=
  p <- lift_result (msg_get msg "priority" (JInt 3)) ;;
  prio <- lift_result (py_int p) ;;
  title <- lift_result (msg_get msg "title" (JStr "")) ;;
  body <- lift_result (msg_get msg "message" (JStr "")) ;;
  log INFO (LogNtfyMessage prio title body) ;;
  if prio >=? 4 then
    log INFO LogHighPriority ;;
    with_object
      (AMIClient_init (AMI_HOST cfg) (AMI_PORT cfg) (AMI_USER cfg) (AMI_PASS cfg))
      dispatch
  else ret tt.

(** The body of the [async for] loop of [subscribe_ntfy], for one line;
    [continue] is the early [ret tt]. The debug record holds the payload
    (the message prints its first 120 characters). *)
Definition process_line (line : string) : ST world unit :=
  let decoded := Py.strip (decode_utf8_ignore line) in
  if negb (Py.startswith decoded "data: ") then ret tt
  else
    let payload := Py.drop 6 decoded in
    parsed <- try_except
                (msg <- lift_result (json_loads payload) ;; ret (Some msg))
                (fun e => if is_JSONDecodeError e
                          then Some (log DEBUG (LogNonJson payload) ;; ret None)
                          else None) ;;
    match parsed with
    | None => ret tt
    | Some msg => handle_ntfy_msg msg
    end.

(** [async for line in resp.content: ...] over the lines delivered. *)
Fixpoint process_lines (lines : list string) : ST world unit :=
  match lines with
  | [] => ret tt
  | line :: rest => process_line line ;; process_lines rest
  end.

(** [f"{NTFY_URL.rstrip('/')}/{NTFY_TOPIC}/sse"] *)
Definition sse_url : string :=
  Py.rstrip_slash (NTFY_URL cfg) ++ "/" ++ NTFY_TOPIC cfg ++ "/sse".

(** [session.get(sse_url, timeout=None)]: the next subscription of the
    world; when none is left the server cannot be reached. The session of
    [ntfy_session] only adds the [Authorization] header when [NTFY_AUTH] is
    set, which does not bear on what follows and is left out. *)
Definition http_get (url : string) : ST world http_attempt :=
  fun w =>
    (Ok (match http w with
         | a :: _ => a
         | [] => GetFails (ClientError "Cannot connect to host")
         end),
     {| net := net w; http := tl (http w);
        trace := (trace w ++ [EvHttpGet url])%list |}).

(** [resp.raise_for_status()] *)
Definition raise_for_status (status : Z) : ST world unit :=
  if 400 <=? status then raise (ClientError "ClientResponseError") else ret tt.

(** The body of [async with session.get(...) as resp], on what the
    request met. *)
Definition read_stream (a : http_attempt) : ST world unit :=
  match a with
  | GetFails e => raise e
  | Response status lines ending =>
      raise_for_status status ;;
      process_lines lines ;;
      match ending with
      | EndOfStream => ret tt
      | StreamError e => raise e
      end
  end.

(** [subscribe_ntfy] *)
Definition subscribe_ntfy : ST world unit :=
  log INFO (LogSubscribing sse_url) ;;
  a <- http_get sse_url ;;
  read_stream a.

(** One turn of the [while True] loop of [main]. *)
Definition main_turn : ST world unit :=
  try_except
    subscribe_ntfy
    (fun err =>
       if is_ClientError err
       then Some (log WARNING (LogSseError err) ;; sleep 3)
       else if is_Exception err
       then Some (log ERROR (LogUnexpected err) ;; sleep 5)
       else None).

(** [main]: the loop has no exit, so a run is described by its first
    [turns] turns; an exception that leaves a turn leaves the loop. *)
Fixpoint main (turns : nat) : ST world unit :=
  match turns with
  | O => ret tt
  | S n => main_turn ;; main n
  end.

End Bridge.

(* ===================================================================== *)
(** * Vocabulary for the statements *)
(* ===================================================================== *)

(** [sub] occurs in [s]. *)
Definition is_substring (sub s : string) : Prop :=
  exists a b, s = a ++ sub ++ b.

(** The effects performed between the world [w] and the later world [w']. *)
Definition performed (w w' : world) : list event :=
  skipn (List.length (trace w)) (trace w').

(** The world [w] after the further effects [evs]. *)
Definition after (w : world) (evs : list event) : world :=
  {| net := net w; http := http w; trace := (trace w ++ evs)%list |}.

(** The trace of the world a method runs in. *)
Definition wtrace (s : AMIClient * world) : list event := trace (snd s).

(** Whatever the state it starts from, [m] only adds effects to the
    trace, and each added effect satisfies [P]. *)
Definition emits_only {S A} (tr : S -> list event) (P : event -> Prop)
    (m : ST S A) : Prop :=
  forall s, exists added,
    tr (snd (m s)) = (tr s ++ added)%list /\ Forall P added.

(** [m] keeps the property [I] of the state, whether it returns or raises. *)
Definition preserves {S A} (I : S -> Prop) (m : ST S A) : Prop :=
  forall s, I s -> I (snd (m s)).

(** The client holds an open socket. *)
Definition sock_open (s : AMIClient * world) : Prop := sock (fst s) <> None.

(** The socket [sk] when [rest] is what it has still to deliver. *)
Definition set_recvs (sk : socket) (rest : list recv_result) : socket :=
  {| sock_recvs := rest; sock_sends := sock_sends sk;
     sock_close_error := sock_close_error sk |}.

(** What the reading loop makes of the results a socket delivers, read off
    the script alone: the outcome, what is left undelivered and the number
    of [recv] calls made. *)
Fixpoint read_outcome (script : list recv_result) (chunks : list string)
  : result (list string) * list recv_result * nat :=
  match script with
  | [] => (Raise (OSError TimeoutError), [], 1%nat)
  | RecvError e :: rest => (Raise (OSError e), rest, 1%nat)
  | RecvData data :: rest =>
      if String.eqb data EmptyString then (Ok chunks, rest, 1%nat)
      else if Py.contains Py.BLANK data then (Ok (chunks ++ [data])%list, rest, 1%nat)
      else match read_outcome rest (chunks ++ [data])%list with
           | (r, rest', n) => (r, rest', Datatypes.S n)
           end
  end.

(** The effects of a control-protocol session and of logging: everything
    but a subscription and a wait. *)
Definition session_event (ev : event) : Prop :=
  match ev with
  | EvHttpGet _ | EvSleep _ => False
  | _ => True
  end.

(** The effects of [connect]: opening the connection, reading, and sending
    a login block. *)
Definition connect_event (ev : event) : Prop :=
  match ev with
  | EvConnect _ _ | EvRecv | EvSetTimeout _ => True
  | EvSend data => exists user pass, data = _ami_line (login_action user pass)
  | _ => False
  end.

(** The number of subscriptions opened among the effects [evs]. *)
Definition subscriptions (evs : list event) : nat :=
  List.length (filter (fun ev => match ev with EvHttpGet _ => true | _ => false end)
                      evs).

(** A chunk after which the reading loop goes on, and one on which it
    stops. *)
Definition chunk_goes_on (data : string) : Prop :=
  data <> EmptyString /\ Py.contains Py.BLANK data = false.

Definition chunk_stops (data : string) : Prop :=
  data = EmptyString \/ Py.contains Py.BLANK data = true.

(** What the next subscription meets, and the world in which its stream
    is then read. *)
Definition met (w : world) : http_attempt :=
  match http w with
  | a :: _ => a
  | [] => GetFails (ClientError "Cannot connect to host")
  end.

Definition subscribed (cfg : config) (w : world) : world :=
  {| net := net w; http := tl (http w);
     trace := (trace w ++ [EvLog INFO (LogSubscribing (sse_url cfg));
                           EvHttpGet (sse_url cfg)])%list |}.

(** An [Originate] command block goes out on a socket. *)
Definition sends_originate (ev : event) : bool :=
  match ev with
  | EvSend data => Py.startswith data "Action: Originate"
  | _ => false
  end.

(** The command blocks of a session. *)
Definition login_block (self : AMIClient) : string :=
  _ami_line (login_action (username self) (secret self)).

Definition logoff_block : string := _ami_line [("Action", VStr "Logoff")].

Definition originate_block (cfg : config) : string :=
  _ami_line (originate_action (DIAL_STRING cfg) (EXTENSION cfg) (CONTEXT cfg)
                              (PRIORITY cfg) (CALLERID cfg) (TIMEOUT_MS cfg)).

(** [d.get(k, default)] on the items of a [dict]. *)
Definition item_or (items : list (string * json)) (k : string) (default : json)
  : json :=
  match dict_lookup k items with Some v => v | None => default end.

(** The record [handle_ntfy_msg] logs for a message with priority [p]. *)
Definition summary (p : Z) (items : list (string * json)) : event :=
  EvLog INFO (LogNtfyMessage p (item_or items "title" (JStr ""))
                               (item_or items "message" (JStr ""))).

(** The authentication failure of the specification's error taxonomy: in
    the code, the [RuntimeError] that [connect] raises over a login
    response, told from the other errors by its message. *)
Definition authentication_failure (e : exn) : Prop :=
  exists response,
    e = RuntimeError ("AMI login failed: " ++ Py.bytes_repr response).

(** The client a dispatch creates. *)
Definition fresh_client (cfg : config) : AMIClient :=
  AMIClient_init (AMI_HOST cfg) (AMI_PORT cfg) (AMI_USER cfg) (AMI_PASS cfg).

(** A message is a JSON object whose priority is the integer [p]. *)
Definition has_int_priority (msg : json) (p : Z) : Prop :=
  exists items, msg = JObj items /\ dict_lookup "priority" items = Some (JInt p).

(** A message is a JSON object without a priority field. *)
Definition lacks_priority (msg : json) : Prop :=
  exists items, msg = JObj items /\ dict_lookup "priority" items = None.

(** Concrete data for the examples. *)
Module Sample.

Definition cfg : config :=
  {| NTFY_URL := "https://ntfy.sh"; NTFY_TOPIC := "alerts"; NTFY_AUTH := "";
     EXTENSION := "1000"; CALLERID := "NTFY Bridge <7777>";
     AMI_HOST := "pbx"; AMI_PORT := 5038;
     AMI_USER := "ntfybridge"; AMI_PASS := "secret";
     CHANNEL_TECH := "PJSIP"; DIAL_STRING := "PJSIP/1000";
     CONTEXT := "from-internal"; PRIORITY := 1; TIMEOUT_MS := 30000 |}.

Definition banner : string := "Asterisk Call Manager/5.0.2" ++ Py.CRLF.

Definition success : string :=
  "Response: Success" ++ Py.CRLF ++ "Message: Authentication accepted" ++ Py.BLANK.

Definition failure : string :=
  "Response: Error" ++ Py.CRLF ++ "Message: Authentication failed" ++ Py.BLANK.

Definition queued : string :=
  "Response: Success" ++ Py.CRLF ++ "Message: Originate successfully queued"
  ++ Py.BLANK.

Definition good_socket : socket :=
  {| sock_recvs := [RecvData banner; RecvData success; RecvData queued];
     sock_sends := []; sock_close_error := None |}.

Definition rejecting_socket : socket :=
  {| sock_recvs := [RecvData banner; RecvData failure];
     sock_sends := []; sock_close_error := None |}.

(** the login reply arrives with its terminator cut in two *)
Definition split_socket : socket :=
  {| sock_recvs := [RecvData ("Response: Success" ++ Py.CRLF); RecvData Py.CRLF];
     sock_sends := []; sock_close_error := None |}.

(** the logoff cannot be sent and the socket's close fails *)
Definition broken_socket : socket :=
  {| sock_recvs := []; sock_sends := [Some BrokenPipeError];
     sock_close_error := Some (OtherOSError 5) |}.

Definition client (s : option socket) : AMIClient :=
  {| host := "pbx"; port := 5038; username := "ntfybridge"; secret := "secret";
     sock := s |}.

Definition world0 : world := {| net := []; http := []; trace := [] |}.

Definition world_with (peers : list peer) (subs : list http_attempt) : world :=
  {| net := peers; http := subs; trace := [] |}.

(** Stand-ins for the two library functions, on the lines used below:
    the lines are ASCII, which decodes to itself, and the payloads are
    looked up in a table. *)
Definition decode (line : string) : string := line.

(** the text of a JSON object with the one field [priority] *)
Definition quoted (s : string) : string :=
  String Py.dquote s ++ String Py.dquote EmptyString.

Definition payload (value : string) : string :=
  "{" ++ quoted "priority" ++ ": " ++ value ++ "}".

Definition frame (value : string) : string :=
  "data: " ++ payload value ++ String Py.LF EmptyString.

Definition loads (text : string) : result json :=
  if String.eqb text (payload "5") then Ok (JObj [("priority", JInt 5)])
  else if String.eqb text (payload "2") then Ok (JObj [("priority", JInt 2)])
  else if String.eqb text (payload (quoted "high"))
       then Ok (JObj [("priority", JStr "high")])
  else if String.eqb text "{}" then Ok (JObj [])
  else Raise (JSONDecodeError "Expecting value").



End Sample.

(* ===================================================================== *)
(** * The HTTP session *)
(* ===================================================================== *)

(** The character of the standard base64 alphabet for a 6-bit value. *)
Definition b64_char (n : nat) : ascii :=
  ascii_of_nat
    (if n <? 26 then 65 + n
     else if n <? 52 then 71 + n
     else if n <? 62 then n - 4
     else if n =? 62 then 43 else 47)%nat.

(** [base64.b64encode]: three bytes give four characters; one or two
    bytes left over give two or three characters and [=] padding. *)
Fixpoint b64encode (s : string) : string :=
  match s with
  | EmptyString => EmptyString
  | String x EmptyString =>
      let a := nat_of_ascii x in
      String (b64_char (a / 4))
        (String (b64_char ((a mod 4) * 16)) "==")
  | String x (String y EmptyString) =>
      let a := nat_of_ascii x in
      let b := nat_of_ascii y in
      String (b64_char (a / 4))
        (String (b64_char ((a mod 4) * 16 + b / 16))
           (String (b64_char ((b mod 16) * 4)) "="))
  | String x (String y (String z rest)) =>
      let a := nat_of_ascii x in
      let b := nat_of_ascii y in
      let c := nat_of_ascii z in
      String (b64_char (a / 4))
        (String (b64_char ((a mod 4) * 16 + b / 16))
           (String (b64_char ((b mod 16) * 4 + c / 64))
              (String (b64_char (c mod 64)) (b64encode rest))))
  end%nat.

(** The headers [ntfy_session] gives its [ClientSession]: none, or the
    basic authorization built from [NTFY_AUTH] when it is not empty. *)
Definition ntfy_session_headers (cfg : config) : list (string * string) :=
  if String.eqb (NTFY_AUTH cfg) EmptyString then []
  else [("Authorization", "Basic " ++ b64encode (NTFY_AUTH cfg))].

(** The 6-bit value of a character of the alphabet. *)
Definition b64_value (c : ascii) : option nat :=
  let v := nat_of_ascii c in
  (if (65 <=? v) && (v <=? 90) then Some (v - 65)
   else if (97 <=? v) && (v <=? 122) then Some (v - 71)
   else if (48 <=? v) && (v <=? 57) then Some (v + 4)
   else if v =? 43 then Some 62
   else if v =? 47 then Some 63
   else None)%nat.

(** The decoding that undoes [b64encode], as the server applies it. *)
Fixpoint b64decode (s : string) : option string :=
  match s with
  | EmptyString => Some EmptyString
  | String c1 (String c2 (String c3 (String c4 rest))) =>
      match b64_value c1, b64_value c2 with
      | Some s1, Some s2 =>
          let b1 := ascii_of_nat (s1 * 4 + s2 / 16) in
          if Ascii.eqb c3 "=" then
            if Ascii.eqb c4 "=" && String.eqb rest EmptyString
            then Some (String b1 EmptyString) else None
          else
            match b64_value c3 with
            | Some s3 =>
                let b2 := ascii_of_nat ((s2 mod 16) * 16 + s3 / 4) in
                if Ascii.eqb c4 "=" then
                  if String.eqb rest EmptyString
                  then Some (String b1 (String b2 EmptyString)) else None
                else
                  match b64_value c4 with
                  | Some s4 =>
                      let b3 := ascii_of_nat ((s3 mod 4) * 64 + s4) in
                      option_map (fun r => String b1 (String b2 (String b3 r)))
                                 (b64decode rest)
                  | None => None
                  end
            | None => None
            end
      | _, _ => None
      end
  | _ => None
  end%nat.

(* ===================================================================== *)
(** * Further vocabulary *)
(* ===================================================================== *)

(** The text holds no carriage return. *)
Definition no_CR (s : string) : Prop := Py.has_char Py.CR s = false.

(** What goes on inside a session between the connection attempt and the
    closing of the socket: reads, sends, timeouts and log records. *)
Definition inner_event (ev : event) : Prop :=
  match ev with
  | EvRecv | EvSetTimeout _ | EvSend _ | EvLog _ _ => True
  | _ => False
  end.

Definition is_connect (ev : event) : bool :=
  match ev with EvConnect _ _ => true | _ => false end.

Definition is_sock_close (ev : event) : bool :=
  match ev with EvSockClose => true | _ => false end.

Definition is_sleep (ev : event) : bool :=
  match ev with EvSleep _ => true | _ => false end.

(** The number of effects among [evs] that [P] picks. *)
Definition count_where (P : event -> bool) (evs : list event) : nat :=
  List.length (filter P evs).

(** The next connection of the world will be accepted. *)
Definition accepted (w : world) : bool :=
  match net w with
  | Accepts _ :: _ => true
  | _ => false
  end.

(** The configuration with another base URL. *)
Definition with_url (cfg : config) (url : string) : config :=
  {| NTFY_URL := url; NTFY_TOPIC := NTFY_TOPIC cfg; NTFY_AUTH := NTFY_AUTH cfg;
     EXTENSION := EXTENSION cfg; CALLERID := CALLERID cfg;
     AMI_HOST := AMI_HOST cfg; AMI_PORT := AMI_PORT cfg;
     AMI_USER := AMI_USER cfg; AMI_PASS := AMI_PASS cfg;
     CHANNEL_TECH := CHANNEL_TECH cfg; DIAL_STRING := DIAL_STRING cfg;
     CONTEXT := CONTEXT cfg; PRIORITY := PRIORITY cfg;
     TIMEOUT_MS := TIMEOUT_MS cfg |}.

(** A line the subscriber takes for a data frame. *)
Definition is_data_line (decode : string -> string) (line : string) : bool :=
  Py.startswith (Py.strip (decode line)) "data: ".

(* ===================================================================== *)
(** * Facts about bytes *)
(* ===================================================================== *)

Section Bytes.

Lemma append_nil_r (s : string) : s ++ EmptyString = s.
Proof. induction s as [|c s IH]; simpl; [reflexivity | now rewrite IH]. Qed.

Lemma append_assoc (a b c : string) : (a ++ b) ++ c = a ++ (b ++ c).
Proof. induction a as [|x a IH]; simpl; [reflexivity | now rewrite IH]. Qed.

Lemma prefix_append (p t : string) : String.prefix p (p ++ t) = true.
Proof.
  induction p as [|c p IH]; simpl.
  - now destruct t.
  - destruct (ascii_dec c c) as [_|n]; [exact IH | now elim n].
Qed.

Lemma prefix_split (p s : string) :
  String.prefix p s = true -> exists t, s = p ++ t.
Proof.
  revert s. induction p as [|c p IH]; intros s H.
  - now exists s.
  - destruct s as [|d s]; simpl in H; [discriminate|].
    destruct (ascii_dec c d) as [->|_]; [|discriminate].
    destruct (IH _ H) as [t ->]. now exists t.
Qed.

(** [Py.contains] decides occurrence. *)
Lemma contains_spec (sub s : string) :
  Py.contains sub s = true <-> is_substring sub s.
Proof.
  split.
  - induction s as [|c s IH]; cbn [Py.contains]; intros H.
    + rewrite orb_false_r in H. destruct (prefix_split _ _ H) as [t Ht].
      exists EmptyString, t. exact Ht.
    + apply orb_true_iff in H. destruct H as [H|H].
      * destruct (prefix_split _ _ H) as [t Ht]. exists EmptyString, t. exact Ht.
      * destruct (IH H) as (a & b & ->). now exists (String c a), b.
  - intros (a & b & ->). induction a as [|c a IH].
    + change (EmptyString ++ sub ++ b) with (sub ++ b).
      destruct (sub ++ b) eqn:E; cbn [Py.contains];
        rewrite <- E, prefix_append; reflexivity.
    + change (String c a ++ sub ++ b) with (String c (a ++ sub ++ b)).
      cbn [Py.contains]. rewrite IH. apply orb_true_r.
Qed.

Lemma not_contains_spec (sub s : string) :
  Py.contains sub s = false <-> ~ is_substring sub s.
Proof.
  rewrite <- contains_spec. destruct (Py.contains sub s); split; intros H.
  - discriminate.
  - now elim H.
  - discriminate.
  - reflexivity.
Qed.

Lemma skipn_length_app {A} (l added : list A) :
  skipn (List.length l) (l ++ added) = added.
Proof. induction l as [|x l IH]; simpl; [reflexivity | exact IH]. Qed.

Lemma performed_after (w : world) (evs : list event) :
  performed w (after w evs) = evs.
Proof. unfold performed, after; simpl. apply skipn_length_app. Qed.

End Bytes.

(* ===================================================================== *)
(** * The serializer *)
(* ===================================================================== *)

Section Serializer.

Lemma join_lines (kv : string * field_value) (d : cmd_dict) :
  Py.join Py.CRLF (map render_field (kv :: d)) ++ Py.CRLF
  = command_block_lines (kv :: d).
Proof.
  revert kv. induction d as [|kv' d IH]; intros kv.
  - reflexivity.
  - change (Py.join Py.CRLF (map render_field (kv :: kv' :: d)))
      with (render_field kv ++ Py.CRLF
            ++ Py.join Py.CRLF (map render_field (kv' :: d))).
    rewrite !append_assoc, IH. reflexivity.
Qed.

Lemma ami_line_lines (d : cmd_dict) :
  d <> [] -> _ami_line d = command_block d.
Proof.
  destruct d as [|kv d]; intros H; [now elim H|].
  unfold _ami_line, command_block, Py.BLANK.
  rewrite <- join_lines, !append_assoc. reflexivity.
Qed.

Lemma ami_line_cons (kv kv' : string * field_value) (d : cmd_dict) :
  _ami_line (kv :: kv' :: d) = render_field kv ++ Py.CRLF ++ _ami_line (kv' :: d).
Proof.
  unfold _ami_line.
  change (Py.join Py.CRLF (map render_field (kv :: kv' :: d)))
    with (render_field kv ++ Py.CRLF
          ++ Py.join Py.CRLF (map render_field (kv' :: d))).
  rewrite !append_assoc. reflexivity.
Qed.

End Serializer.

(** C3. For a non-empty dictionary, [_ami_line] gives the fields one per
    line as [Key: Value], in insertion order, each line ended by CRLF, and
    then a blank line; the head field comes first and the rest follows in
    the same way; two fields [K1=V1], [K2=V2] give exactly
    [K1: V1\r\nK2: V2\r\n\r\n]. *)
Theorem ami_line_exact_framing :
  forall d : cmd_dict,
    d <> [] ->
    _ami_line d = command_block d
    /\ (forall k v d', d = (k, v) :: d' -> d' <> [] ->
          _ami_line d = k ++ ": " ++ format_value v ++ Py.CRLF ++ _ami_line d')
    /\ (forall k1 v1 k2 v2, d = [(k1, VStr v1); (k2, VStr v2)] ->
          _ami_line d
          = k1 ++ ": " ++ v1 ++ Py.CRLF ++ k2 ++ ": " ++ v2 ++ Py.CRLF ++ Py.CRLF).
Proof.
  intros d Hd. split; [now apply ami_line_lines|]. split.
  - intros k v d' -> Hd'. destruct d' as [|kv' d']; [now elim Hd'|].
    rewrite ami_line_cons. unfold render_field; simpl.
    rewrite !append_assoc. reflexivity.
  - intros k1 v1 k2 v2 ->. unfold _ami_line, Py.join, Py.BLANK, render_field; simpl.
    repeat (rewrite !append_assoc; simpl). reflexivity.
Qed.

Lemma ami_line_exact_framing_witness :
  [("K1", VStr "V1"); ("K2", VStr "V2")] <> []
  /\ _ami_line [("K1", VStr "V1"); ("K2", VStr "V2")]
     = "K1: V1" ++ Py.CRLF ++ "K2: V2" ++ Py.CRLF ++ Py.CRLF.
Proof.
  split; [discriminate|].
  exact (proj2 (proj2 (ami_line_exact_framing
                         [("K1", VStr "V1"); ("K2", VStr "V2")]
                         ltac:(discriminate)))
           "K1" "V1" "K2" "V2" eq_refl).
Defined.

(* ===================================================================== *)
(** * Rules for traces and invariants *)
(* ===================================================================== *)

Section Rules.

Context {S : Type} (tr : S -> list event).

Lemma emits_ret {A} P (a : A) : emits_only tr P (ret a).
Proof. intros s. exists []. simpl. now rewrite app_nil_r. Qed.

Lemma emits_raise {A} P e : emits_only tr P (@raise S A e).
Proof. intros s. exists []. simpl. now rewrite app_nil_r. Qed.

Lemma emits_lift_result {A} P (r : result A) : emits_only tr P (lift_result r).
Proof. intros s. exists []. simpl. now rewrite app_nil_r. Qed.

Lemma emits_bind {A B} P (m : ST S A) (k : A -> ST S B) :
  emits_only tr P m -> (forall a, emits_only tr P (k a)) ->
  emits_only tr P (bind m k).
Proof.
  intros Hm Hk s. unfold bind. destruct (Hm s) as (l1 & E1 & F1).
  destruct (m s) as [[a|e] s1]; simpl in *.
  - destruct (Hk a s1) as (l2 & E2 & F2). exists (l1 ++ l2)%list.
    rewrite E2, E1, app_assoc. split; [reflexivity | now apply Forall_app].
  - now exists l1.
Qed.

Lemma emits_try_except {A} P (body : ST S A) handler :
  emits_only tr P body ->
  (forall e h, handler e = Some h -> emits_only tr P h) ->
  emits_only tr P (try_except body handler).
Proof.
  intros Hb Hh s. unfold try_except. destruct (Hb s) as (l1 & E1 & F1).
  destruct (body s) as [[a|e] s1]; simpl in *.
  - now exists l1.
  - destruct (handler e) as [h|] eqn:Eh.
    + destruct (Hh e h Eh s1) as (l2 & E2 & F2). exists (l1 ++ l2)%list.
      rewrite E2, E1, app_assoc. split; [reflexivity | now apply Forall_app].
    + now exists l1.
Qed.

Lemma emits_try_finally {A} P (body : ST S A) fin :
  emits_only tr P body -> emits_only tr P fin ->
  emits_only tr P (try_finally body fin).
Proof.
  intros Hb Hf s. unfold try_finally. destruct (Hb s) as (l1 & E1 & F1).
  destruct (body s) as [r s1]; simpl in *.
  destruct (Hf s1) as (l2 & E2 & F2).
  destruct (fin s1) as [[u|e] s2]; simpl in *;
    exists (l1 ++ l2)%list; rewrite E2, E1, app_assoc;
    (split; [reflexivity | now apply Forall_app]).
Qed.

Lemma emits_except_Exception {A} P (h : exn -> ST S A) :
  (forall e, emits_only tr P (h e)) ->
  forall e h', except_Exception h e = Some h' -> emits_only tr P h'.
Proof. intros H e h' E. injection E as <-. apply H. Qed.

Lemma emits_weaken {A} (P Q : event -> Prop) (m : ST S A) :
  (forall ev, P ev -> Q ev) -> emits_only tr P m -> emits_only tr Q m.
Proof.
  intros HPQ Hm s. destruct (Hm s) as (l & E & F). exists l. split; [exact E|].
  eapply Forall_impl; eauto.
Qed.

Lemma preserves_ret {A} I (a : A) : preserves (S:=S) I (ret a).
Proof. intros s H. exact H. Qed.

Lemma preserves_raise {A} I e : preserves I (@raise S A e).
Proof. intros s H. exact H. Qed.

Lemma preserves_lift_result {A} I (r : result A) : preserves (S:=S) I (lift_result r).
Proof. intros s H. exact H. Qed.

Lemma preserves_bind {A B} I (m : ST S A) (k : A -> ST S B) :
  preserves I m -> (forall a, preserves I (k a)) -> preserves I (bind m k).
Proof.
  intros Hm Hk s H. unfold bind. specialize (Hm s H).
  destruct (m s) as [[a|e] s1]; simpl in *; [now apply Hk | exact Hm].
Qed.

End Rules.

Section WorldRules.

Lemma after_after (w : world) (l1 l2 : list event) :
  after (after w l1) l2 = after w (l1 ++ l2).
Proof. unfold after; simpl. now rewrite app_assoc. Qed.

Lemma emits_emit P (ev : event) : P ev -> emits_only trace P (emit ev).
Proof. intros H w. exists [ev]. split; [reflexivity | now constructor]. Qed.

Lemma emits_in_world {A} P (m : ST world A) :
  emits_only trace P m -> emits_only wtrace P (in_world m).
Proof.
  intros H [self w]. unfold in_world, wtrace; simpl.
  destruct (H w) as (l & E & F). destruct (m w) as [r w']. now exists l.
Qed.

Lemma emits_with_object {A} P obj (m : ST (AMIClient * world) A) :
  emits_only wtrace P m -> emits_only trace P (with_object obj m).
Proof.
  intros H w. unfold with_object.
  destruct (H (obj, w)) as (l & E & F). destruct (m (obj, w)) as [r s'].
  now exists l.
Qed.

Lemma emits_get_sock P : emits_only wtrace P get_sock.
Proof. intros s. exists []. unfold wtrace; simpl. now rewrite app_nil_r. Qed.

Lemma emits_get_self P : emits_only wtrace P get_self.
Proof. intros s. exists []. unfold wtrace; simpl. now rewrite app_nil_r. Qed.

Lemma emits_set_sock P v : emits_only wtrace P (set_sock v).
Proof. intros s. exists []. unfold wtrace; simpl. now rewrite app_nil_r. Qed.

Lemma emits_create_connection P h p :
  P (EvConnect h p) -> emits_only trace P (create_connection h p).
Proof.
  intros H w. exists [EvConnect h p]. unfold create_connection.
  destruct (net w) as [|[e|s] rest]; simpl; (split; [reflexivity | now constructor]).
Qed.

Lemma emits_the_sock P : emits_only wtrace P the_sock.
Proof.
  intros s. exists []. unfold the_sock, bind, get_sock, wtrace; simpl.
  destruct (sock (fst s)); simpl; now rewrite app_nil_r.
Qed.

End WorldRules.

(** Decomposes a goal [emits_only tr P m] along the structure of [m]; what
    is left are the conditions [P ev] on the events emitted. *)
Ltac emits_step :=
  first
    [ apply emits_ret | apply emits_raise | apply emits_lift_result
    | apply emits_get_sock | apply emits_get_self | apply emits_set_sock
    | apply emits_the_sock
    | apply emits_bind; [| intros ?]
    | apply emits_try_finally
    | apply emits_try_except; [| intros ? ? ?]
    | apply emits_in_world
    | apply emits_with_object
    | apply emits_emit
    | apply emits_create_connection
    | match goal with
      | H : except_Exception _ _ = Some _ |- _ =>
          unfold except_Exception in H; simpl in H; injection H as <-
      | |- emits_only _ _ (match ?x with _ => _ end) => destruct x
      | |- emits_only _ _ (if ?b then _ else _) => destruct b
      end ].
Ltac emits := repeat emits_step.

(* ===================================================================== *)
(** * The AMI client *)
(* ===================================================================== *)

Section Client.

Variables (self : AMIClient) (w : world).

Lemma send_closed cmd :
  sock self = None ->
  _send cmd (self, w) = (Raise (RuntimeError "AMI connection not open"), (self, w)).
Proof. intros H. unfold _send, bind, get_sock; simpl. now rewrite H. Qed.

Lemma send_open cmd sk :
  sock self = Some sk ->
  _send cmd (self, w)
  = (fst (sock_sendall sk),
     (with_sock self (Some (snd (sock_sendall sk))),
      after w [EvSend (_ami_line cmd)])).
Proof.
  intros H. unfold _send, sendall, the_sock, bind, get_sock; simpl.
  repeat (rewrite H; simpl). destruct (sock_sendall sk) as [[u|e] sk']; simpl.
  - destruct u. reflexivity.
  - reflexivity.
Qed.

Lemma recv_open sk :
  sock self = Some sk ->
  recv (self, w)
  = (fst (sock_recv sk),
     (with_sock self (Some (snd (sock_recv sk))), after w [EvRecv])).
Proof.
  intros H. unfold recv, the_sock, bind, get_sock; simpl.
  repeat (rewrite H; simpl). destruct (sock_recv sk) as [[d|e] sk']; reflexivity.
Qed.

Lemma settimeout_open sk secs :
  sock self = Some sk ->
  settimeout secs (self, w) = (Ok tt, (self, after w [EvSetTimeout secs])).
Proof.
  intros H. unfold settimeout, the_sock, bind, get_sock; simpl.
  repeat (rewrite H; simpl). reflexivity.
Qed.

Lemma read_closed :
  sock self = None ->
  _read_until_blank (self, w)
  = (Raise (RuntimeError "AMI connection not open"), (self, w)).
Proof. intros H. unfold _read_until_blank, bind, get_sock; simpl. now rewrite H. Qed.

Lemma originate_closed channel exten context priority callerid timeout_ms :
  sock self = None ->
  originate_simple channel exten context priority callerid timeout_ms (self, w)
  = (Raise (RuntimeError "AMI connection not open"), (self, w)).
Proof. intros H. unfold originate_simple, bind. now rewrite send_closed. Qed.

Lemma close_closed :
  sock self = None -> close (self, w) = (Ok tt, (self, w)).
Proof.
  intros H. unfold close, try_finally, try_except, bind, get_sock; simpl.
  rewrite H; simpl. now rewrite H.
Qed.

Lemma close_open sk :
  sock self = Some sk ->
  close (self, w)
  = (match sock_close_error sk with
     | Some e => Raise (OSError e)
     | None => Ok tt
     end,
     (with_sock self None, after w [EvSend logoff_block; EvSockClose])).
Proof.
  intros H. unfold close, try_finally, try_except.
  unfold bind at 1, get_sock at 1; simpl. rewrite H.
  rewrite (send_open _ sk H).
  unfold sock_close, the_sock, bind, get_sock, in_world, set_sock; simpl.
  destruct (sock_sendall sk) as [[u|e] sk'] eqn:E; simpl;
    assert (Hc : sock_close_error sk' = sock_close_error sk)
      by (unfold sock_sendall in E; destruct (sock_sends sk) as [|[x|] l];
          injection E as _ <-; reflexivity);
    rewrite Hc; destruct (sock_close_error sk); simpl;
    unfold after, logoff_block; simpl; rewrite <- app_assoc;
    try destruct u; reflexivity.
Qed.

End Client.

Section ClientGeneral.

(** [close] leaves the socket field cleared, whatever happens. *)
Lemma close_clears (s : AMIClient * world) : sock (fst (snd (close s))) = None.
Proof.
  destruct s as [self w]. destruct (sock self) as [sk|] eqn:H.
  - rewrite (close_open self w sk H). reflexivity.
  - rewrite (close_closed self w H). exact H.
Qed.

Lemma read_loop_outcome (script : list recv_result) :
  forall fuel chunks self w sk,
    sock self = Some sk -> sock_recvs sk = script ->
    (List.length script <= fuel)%nat ->
    read_loop fuel chunks (self, w)
    = match read_outcome script chunks with
      | (r, rest, n) =>
          (r, (with_sock self (Some (set_recvs sk rest)),
               after w (repeat EvRecv n)))
      end.
Proof.
  induction script as [|x script IH]; intros fuel chunks self w sk Hs Hr Hf.
  - destruct fuel; simpl; unfold bind; rewrite (recv_open self w sk Hs);
      unfold sock_recv; rewrite Hr; reflexivity.
  - destruct fuel as [|fuel]; [simpl in Hf; lia|].
    simpl. unfold bind. rewrite (recv_open self w sk Hs).
    unfold sock_recv. rewrite Hr. destruct x as [data|e]; simpl; [|reflexivity].
    destruct (String.eqb data EmptyString); [reflexivity|].
    destruct (Py.contains Py.BLANK data); [reflexivity|].
    assert (Hf' : (List.length script <= fuel)%nat) by (simpl in Hf; lia).
    refine (eq_trans
              (IH fuel (chunks ++ [data])%list
                  (with_sock self (Some (set_recvs sk script)))
                  (after w [EvRecv]) (set_recvs sk script) eq_refl eq_refl Hf') _).
    destruct (read_outcome script (chunks ++ [data])%list) as [[r rest] n].
    unfold with_sock, set_recvs; simpl. rewrite after_after. reflexivity.
Qed.

(** More fuel than the socket has results changes nothing. *)
Lemma read_loop_fuel fuel chunks self w sk :
  sock self = Some sk -> (List.length (sock_recvs sk) <= fuel)%nat ->
  read_loop fuel chunks (self, w)
  = read_loop (List.length (sock_recvs sk)) chunks (self, w).
Proof.
  intros Hs Hf.
  rewrite (read_loop_outcome (sock_recvs sk) fuel chunks self w sk Hs eq_refl Hf).
  rewrite (read_loop_outcome (sock_recvs sk) _ chunks self w sk Hs eq_refl (le_n _)).
  reflexivity.
Qed.

Lemma read_until_blank_outcome self w sk :
  sock self = Some sk ->
  _read_until_blank (self, w)
  = match read_outcome (sock_recvs sk) [] with
    | (r, rest, n) =>
        (match r with
         | Ok chunks => Ok (Py.join EmptyString chunks)
         | Raise e => Raise e
         end,
         (with_sock self (Some (set_recvs sk rest)),
          after w (EvSetTimeout 10 :: repeat EvRecv n)))
    end.
Proof.
  intros Hs. unfold _read_until_blank.
  unfold bind at 1, get_sock at 1; simpl. rewrite Hs.
  unfold bind at 1. rewrite (settimeout_open self w sk 10 Hs).
  unfold bind at 1.
  rewrite (read_loop_outcome (sock_recvs sk) _ [] self _ sk Hs eq_refl (le_n _)).
  destruct (read_outcome (sock_recvs sk) []) as [[[chunks|e] rest] n];
    simpl; rewrite after_after; reflexivity.
Qed.

End ClientGeneral.

Section ClientEffects.

Variable P : event -> Prop.

Lemma emits_recv : P EvRecv -> emits_only wtrace P recv.
Proof. intros H. unfold recv. emits. exact H. Qed.

Lemma emits_send cmd : P (EvSend (_ami_line cmd)) -> emits_only wtrace P (_send cmd).
Proof. intros H. unfold _send. emits. exact H. Qed.

Lemma emits_read_loop fuel :
  P EvRecv -> forall chunks, emits_only wtrace P (read_loop fuel chunks).
Proof.
  intros H. induction fuel as [|fuel IH]; intros chunks; simpl.
  - apply emits_bind; [now apply emits_recv | intros data]. emits.
  - apply emits_bind; [now apply emits_recv | intros data]. emits. apply IH.
Qed.

Lemma emits_read_until_blank :
  P EvRecv -> P (EvSetTimeout 10) -> emits_only wtrace P _read_until_blank.
Proof.
  intros H1 H2. unfold _read_until_blank.
  apply emits_bind; [apply emits_get_sock | intros [sk|]]; [|apply emits_raise].
  apply emits_bind; [unfold settimeout; emits; exact H2 | intros _].
  apply emits_bind; [now apply emits_read_loop | intros chunks; apply emits_ret].
Qed.

Lemma emits_connect :
  (forall ev, connect_event ev -> P ev) -> emits_only wtrace P connect.
Proof.
  intros H. unfold connect.
  apply emits_bind; [| intros _; apply emits_bind; [| intros r]].
  - unfold connect_login.
    apply emits_bind; [apply emits_get_self | intros self].
    apply emits_bind; [apply emits_in_world, emits_create_connection, H; exact I
                      | intros sk].
    apply emits_bind; [apply emits_set_sock | intros _].
    apply emits_bind; [apply emits_recv, H; exact I | intros _].
    apply emits_send, H. simpl. exists (username self), (secret self). reflexivity.
  - apply emits_read_until_blank; apply H; exact I.
  - unfold check_login. emits.
Qed.

Lemma emits_close :
  P (EvSend logoff_block) -> P EvSockClose -> emits_only wtrace P close.
Proof.
  intros H1 H2. unfold close.
  apply emits_try_finally.
  - apply emits_try_except.
    + apply emits_bind; [apply emits_get_sock | intros [sk|]];
        [now apply emits_send | apply emits_ret].
    + apply emits_except_Exception. intros e. apply emits_ret.
  - apply emits_bind; [apply emits_get_sock | intros [sk|]]; [|apply emits_ret].
    apply emits_try_finally; [|apply emits_set_sock].
    unfold sock_close. emits. exact H2.
Qed.

Lemma emits_originate_simple channel exten context priority callerid timeout_ms :
  P (EvSend (_ami_line (originate_action channel exten context priority
                                         callerid timeout_ms))) ->
  P EvRecv -> P (EvSetTimeout 10) ->
  emits_only wtrace P
    (originate_simple channel exten context priority callerid timeout_ms).
Proof.
  intros H1 H2 H3. unfold originate_simple.
  apply emits_bind; [now apply emits_send | intros _].
  apply emits_bind; [now apply emits_read_until_blank | intros _; apply emits_ret].
Qed.

End ClientEffects.

Lemma connect_event_session ev : connect_event ev -> session_event ev.
Proof. destruct ev; simpl; tauto. Qed.

Lemma connect_event_not_originate ev : connect_event ev -> sends_originate ev = false.
Proof.
  destruct ev; simpl; try tauto; try reflexivity.
  intros (user & pass & ->). reflexivity.
Qed.

Section Dispatch.

Variable cfg : config.

Lemma emits_dispatch_call : emits_only wtrace session_event (dispatch_call cfg).
Proof.
  unfold dispatch_call.
  apply emits_bind; [apply emits_connect, connect_event_session | intros _].
  apply emits_bind; [apply emits_originate_simple; exact I | intros _].
  apply emits_in_world, emits_emit. exact I.
Qed.

Lemma emits_dispatch : emits_only wtrace session_event (dispatch cfg).
Proof.
  unfold dispatch. apply emits_try_finally.
  - apply emits_try_except; [apply emits_dispatch_call|].
    apply emits_except_Exception. intros e. apply emits_in_world, emits_emit.
    exact I.
  - apply emits_try_except; [apply emits_close; exact I|].
    apply emits_except_Exception. intros e. apply emits_ret.
Qed.

(** A dispatch is: the call, the error record if it raised, and [close],
    whose own failure is dropped; it returns normally. *)
Lemma dispatch_eq (s : AMIClient * world) :
  dispatch cfg s
  = (Ok tt,
     snd (close match dispatch_call cfg s with
                | (Ok _, s1) => s1
                | (Raise e, s1) =>
                    (fst s1, after (snd s1) [EvLog ERROR (LogOriginateFailed e)])
                end)).
Proof.
  unfold dispatch, try_finally, try_except, except_Exception; simpl.
  destruct (dispatch_call cfg s) as [[u|e] s1]; simpl.
  - destruct (close s1) as [[v|e'] s2]; simpl; destruct u; reflexivity.
  - unfold in_world, log; simpl.
    destruct (close _) as [[v|e'] s2]; reflexivity.
Qed.

End Dispatch.

Section OpenSocket.

Lemma open_inv (s : AMIClient * world) :
  sock_open s -> exists sk, sock (fst s) = Some sk.
Proof. unfold sock_open. destruct (sock (fst s)) as [sk|]; [now exists sk | tauto]. Qed.

Lemma preserves_open_recv : preserves sock_open recv.
Proof.
  intros [self w] H. destruct (open_inv _ H) as [sk Hs]. simpl in Hs.
  rewrite (recv_open self w sk Hs). discriminate.
Qed.

Lemma preserves_open_send cmd : preserves sock_open (_send cmd).
Proof.
  intros [self w] H. destruct (open_inv _ H) as [sk Hs]. simpl in Hs.
  rewrite (send_open self w cmd sk Hs). discriminate.
Qed.

Lemma preserves_open_read : preserves sock_open _read_until_blank.
Proof.
  intros [self w] H. destruct (open_inv _ H) as [sk Hs]. simpl in Hs.
  rewrite (read_until_blank_outcome self w sk Hs).
  destruct (read_outcome (sock_recvs sk) []) as [[r rest] n]. discriminate.
Qed.

Lemma preserves_open_in_world {A} (m : ST world A) : preserves sock_open (in_world m).
Proof. intros [self w] H. unfold in_world; simpl. destruct (m w). exact H. Qed.

Lemma preserves_open_check response : preserves sock_open (check_login response).
Proof.
  unfold check_login. destruct (negb _); [apply preserves_raise | apply preserves_ret].
Qed.

Lemma preserves_open_originate channel exten context priority callerid timeout_ms :
  preserves sock_open
    (originate_simple channel exten context priority callerid timeout_ms).
Proof.
  unfold originate_simple.
  apply preserves_bind; [apply preserves_open_send | intros _].
  apply preserves_bind; [apply preserves_open_read | intros _; apply preserves_ret].
Qed.

(** An invariant that holds after [m] holds after [m ;; k]. *)
Lemma bind_from {S A B} (I : S -> Prop) (m : ST S A) (k : A -> ST S B) s :
  I (snd (m s)) -> (forall a, preserves I (k a)) -> I (snd (bind m k s)).
Proof.
  intros Hm Hk. unfold bind. destruct (m s) as [[a|e] s1]; simpl in *;
    [now apply Hk | exact Hm].
Qed.

(** The same for the trace: what [m] has emitted stays in front. *)
Lemma bind_trace_from {S A B} (tr : S -> list event) P
    (m : ST S A) (k : A -> ST S B) s t0 :
  (exists more, tr (snd (m s)) = (t0 ++ more)%list) ->
  (forall a, emits_only tr P (k a)) ->
  exists more, tr (snd (bind m k s)) = (t0 ++ more)%list.
Proof.
  intros [l1 E1] Hk. unfold bind. destruct (m s) as [[a|e] s1]; simpl in *.
  - destruct (Hk a s1) as (l2 & E2 & _). exists (l1 ++ l2)%list.
    now rewrite E2, E1, app_assoc.
  - now exists l1.
Qed.

Lemma emits_extends {S A} (tr : S -> list event) P (m : ST S A) s :
  emits_only tr P m -> exists more, tr (snd (m s)) = (tr s ++ more)%list.
Proof. intros H. destruct (H s) as (l & E & _). now exists l. Qed.

Lemma performed_app (w w' : world) (more : list event) :
  trace w' = (trace w ++ more)%list -> performed w w' = more.
Proof. intros E. unfold performed. rewrite E. apply skipn_length_app. Qed.

(** [connect] on an accepted connection. *)
Lemma connect_login_accepts self w sk rest :
  net w = Accepts sk :: rest ->
  connect_login (self, w)
  = (recv ;; _send (login_action (username self) (secret self)))
      (with_sock self (Some sk),
       {| net := rest; http := http w;
          trace := (trace w ++ [EvConnect (host self) (port self)])%list |}).
Proof.
  intros H. unfold connect_login.
  unfold bind at 1, get_self at 1; simpl.
  unfold bind at 1, in_world at 1, create_connection at 1; simpl. rewrite H; simpl.
  reflexivity.
Qed.

(** [connect] on a connection that cannot be opened. *)
Lemma connect_login_refused self w :
  (forall sk rest, net w <> Accepts sk :: rest) ->
  exists e,
    connect_login (self, w)
    = (Raise e,
       (self, {| net := tl (net w); http := http w;
                 trace := (trace w ++ [EvConnect (host self) (port self)])%list |})).
Proof.
  intros H. unfold connect_login.
  unfold bind at 1, get_self at 1; simpl.
  unfold bind at 1, in_world at 1, create_connection at 1; simpl.
  destruct (net w) as [|[e|sk] rest]; simpl.
  - now exists (OSError ConnectionRefusedError).
  - now exists e.
  - now elim (H sk rest).
Qed.

Lemma connect_login_opens self w sk rest :
  net w = Accepts sk :: rest -> sock_open (snd (connect_login (self, w))).
Proof.
  intros H. rewrite (connect_login_accepts self w sk rest H).
  apply bind_from.
  - apply preserves_open_recv. discriminate.
  - intros _. apply preserves_open_send.
Qed.

Lemma connect_opens self w sk rest :
  net w = Accepts sk :: rest -> sock_open (snd (connect (self, w))).
Proof.
  intros H. unfold connect. apply bind_from.
  - now apply (connect_login_opens self w sk rest).
  - intros _. apply preserves_bind; [apply preserves_open_read|].
    intros r. apply preserves_open_check.
Qed.

(** When [connect] returns, the socket is open. *)
Lemma connect_ok_open s s1 : connect s = (Ok tt, s1) -> sock_open s1.
Proof.
  destruct s as [self w]. intros H.
  destruct (net w) as [|[e|sk] rest] eqn:En.
  - destruct (connect_login_refused self w) as [e E]; [rewrite En; discriminate|].
    unfold connect, bind in H. rewrite E in H. discriminate.
  - destruct (connect_login_refused self w) as [e' E]; [rewrite En; discriminate|].
    unfold connect, bind in H. rewrite E in H. discriminate.
  - pose proof (connect_opens self w sk rest En) as K. now rewrite H in K.
Qed.

(** The first effect of [connect] is the connection attempt. *)
Lemma connect_login_starts self w :
  exists more,
    wtrace (snd (connect_login (self, w)))
    = (trace w ++ EvConnect (host self) (port self) :: more)%list.
Proof.
  destruct (net w) as [|[e|sk] rest] eqn:En.
  - destruct (connect_login_refused self w) as [e E]; [rewrite En; discriminate|].
    rewrite E. now exists [].
  - destruct (connect_login_refused self w) as [e' E]; [rewrite En; discriminate|].
    rewrite E. now exists [].
  - rewrite (connect_login_accepts self w sk rest En).
    match goal with |- context [?m (?a, ?b)] =>
      destruct (emits_extends wtrace (fun _ => True) m (a, b)) as [more E]
    end.
    + apply emits_bind; [now apply emits_recv | intros _; now apply emits_send].
    + exists more. rewrite E. unfold wtrace; simpl. now rewrite <- app_assoc.
Qed.

End OpenSocket.

Section DispatchTrace.

Variable cfg : config.

Lemma dispatch_returns (s : AMIClient * world) :
  exists s', dispatch cfg s = (Ok tt, s').
Proof. rewrite dispatch_eq. eexists. reflexivity. Qed.

Lemma dispatch_clears (s : AMIClient * world) :
  sock (fst (snd (dispatch cfg s))) = None.
Proof. rewrite dispatch_eq. simpl. apply close_clears. Qed.

(** What the call has emitted stays in front of what the whole dispatch
    emits. *)
Lemma dispatch_trace_from (s : AMIClient * world) t0 :
  (exists more, wtrace (snd (dispatch_call cfg s)) = (t0 ++ more)%list) ->
  exists more, wtrace (snd (dispatch cfg s)) = (t0 ++ more)%list.
Proof.
  intros [l1 E1]. rewrite dispatch_eq. simpl snd.
  destruct (dispatch_call cfg s) as [[u|e] s1]; simpl in E1.
  - destruct (emits_extends wtrace (fun _ => True) close s1) as [l2 E2].
    { now apply emits_close. }
    exists (l1 ++ l2)%list. now rewrite E2, E1, app_assoc.
  - match goal with |- context [close ?x] =>
      destruct (emits_extends wtrace (fun _ => True) close x) as [l2 E2]
    end.
    { now apply emits_close. }
    exists (l1 ++ [EvLog ERROR (LogOriginateFailed e)] ++ l2)%list.
    rewrite E2. unfold wtrace in *; simpl. rewrite E1.
    now rewrite <- !app_assoc.
Qed.

(** A dispatch starts with the connection attempt. *)
Lemma dispatch_starts self w :
  exists more,
    wtrace (snd (dispatch cfg (self, w)))
    = (trace w ++ EvConnect (host self) (port self) :: more)%list.
Proof.
  destruct (dispatch_trace_from (self, w)
              (trace w ++ [EvConnect (host self) (port self)])%list) as [more E].
  - unfold dispatch_call.
    apply (bind_trace_from wtrace session_event).
    + unfold connect. apply (bind_trace_from wtrace session_event).
      * destruct (connect_login_starts self w) as [more E]. exists more.
        rewrite E. now rewrite <- app_assoc.
      * intros _. apply emits_bind;
          [apply emits_read_until_blank; exact I | intros r].
        unfold check_login. destruct (negb _); [apply emits_raise | apply emits_ret].
    + intros _. apply emits_bind; [apply emits_originate_simple; exact I | intros _].
      apply emits_in_world, emits_emit. exact I.
  - exists more. rewrite E. now rewrite <- app_assoc.
Qed.

(** Once [connect] has returned, the [Originate] block is sent. *)
Lemma dispatch_sends_originate s s1 :
  connect s = (Ok tt, s1) ->
  exists pre post,
    wtrace (snd (dispatch cfg s))
    = (wtrace s ++ pre ++ EvSend (originate_block cfg) :: post)%list.
Proof.
  intros H.
  destruct (emits_extends wtrace session_event connect s) as [pre Epre].
  { apply emits_connect, connect_event_session. }
  rewrite H in Epre. simpl in Epre.
  destruct (open_inv s1 (connect_ok_open s s1 H)) as [sk Hsk].
  destruct s1 as [self1 w1]. simpl in Hsk.
  destruct (dispatch_trace_from s
              (wtrace s ++ pre ++ [EvSend (originate_block cfg)])%list)
    as [post E].
  - unfold dispatch_call. unfold bind at 1. rewrite H.
    apply (bind_trace_from wtrace session_event).
    + unfold originate_simple. apply (bind_trace_from wtrace session_event).
      * rewrite (send_open self1 w1 _ sk Hsk). exists []. unfold wtrace in *; simpl.
        simpl in Epre. rewrite Epre, app_nil_r. unfold originate_block.
        now rewrite <- app_assoc.
      * intros _. apply emits_bind;
          [apply emits_read_until_blank; exact I | intros _; apply emits_ret].
    + intros _. apply emits_in_world, emits_emit. exact I.
  - exists pre, post. rewrite E. now rewrite <- !app_assoc.
Qed.

End DispatchTrace.

(* ===================================================================== *)
(** * The dispatcher *)
(* ===================================================================== *)

Section Handler.

Variable cfg : config.

Lemma handle_low items p w :
  dict_lookup "priority" items = Some (JInt p) -> p <= 3 ->
  handle_ntfy_msg cfg (JObj items) w = (Ok tt, after w [summary p items]).
Proof.
  intros H Hp. unfold handle_ntfy_msg, bind, lift_result, msg_get; simpl.
  rewrite H; simpl. destruct (Z.geb_spec p 4) as [K|K]; [lia | reflexivity].
Qed.

Lemma handle_missing items w :
  dict_lookup "priority" items = None ->
  handle_ntfy_msg cfg (JObj items) w = (Ok tt, after w [summary 3 items]).
Proof.
  intros H. unfold handle_ntfy_msg, bind, lift_result, msg_get; simpl.
  rewrite H; reflexivity.
Qed.

(** When [int()] rejects the priority, its exception leaves the handler
    before anything is logged. *)
Lemma handle_bad_priority items v e w :
  dict_lookup "priority" items = Some v -> py_int v = Raise e ->
  handle_ntfy_msg cfg (JObj items) w = (Raise e, w).
Proof.
  intros H He. unfold handle_ntfy_msg, bind, lift_result, msg_get; simpl.
  rewrite H; simpl. now rewrite He.
Qed.

(** A message that is not a JSON object has no [get]. *)
Lemma handle_not_object msg w :
  (forall items, msg <> JObj items) ->
  exists e, handle_ntfy_msg cfg msg w = (Raise (AttributeError e), w).
Proof.
  intros H. destruct msg; try (eexists; reflexivity). now elim (H items).
Qed.

Lemma handle_high items p w :
  dict_lookup "priority" items = Some (JInt p) -> 4 <= p ->
  handle_ntfy_msg cfg (JObj items) w
  = with_object (fresh_client cfg) (dispatch cfg)
      (after w [summary p items; EvLog INFO LogHighPriority]).
Proof.
  intros H Hp. unfold handle_ntfy_msg, bind, lift_result, msg_get; simpl.
  rewrite H; simpl. destruct (Z.geb_spec p 4) as [K|K]; [|lia].
  unfold after; simpl. rewrite <- app_assoc. reflexivity.
Qed.

Lemma with_object_dispatch obj w :
  with_object obj (dispatch cfg) w = (Ok tt, snd (snd (dispatch cfg (obj, w)))).
Proof.
  unfold with_object. destruct (dispatch_returns cfg (obj, w)) as [s' E].
  now rewrite E.
Qed.

(** With an integer priority, or none, the handler returns normally. *)
Lemma handle_returns msg w :
  (exists p, has_int_priority msg p) \/ lacks_priority msg ->
  exists w', handle_ntfy_msg cfg msg w = (Ok tt, w').
Proof.
  intros [[p (items & -> & H)] | (items & -> & H)].
  - destruct (Z_le_gt_dec p 3) as [K|K].
    + rewrite (handle_low items p w H K). eexists; reflexivity.
    + rewrite (handle_high items p w H) by lia. rewrite with_object_dispatch.
      eexists; reflexivity.
  - rewrite (handle_missing items w H). eexists; reflexivity.
Qed.

End Handler.

Section FailedConnect.

Variable cfg : config.

Lemma no_originate_among (evs : list event) :
  Forall (fun ev => sends_originate ev = false) evs ->
  existsb sends_originate evs = false.
Proof.
  induction 1 as [|ev evs H _ IH]; [reflexivity|]. simpl. now rewrite H, IH.
Qed.

(** When [connect] raises, the dispatch logs the exception; what it does
    before is [connect]'s own, and what it does after is the logoff and the
    closing of the socket: no Originate block is among its effects. *)
Lemma dispatch_after_failed_connect s e s1 :
  connect s = (Raise e, s1) ->
  exists before after_it,
    wtrace (snd (dispatch cfg s))
    = (wtrace s ++ before ++ EvLog ERROR (LogOriginateFailed e) :: after_it)%list
    /\ existsb sends_originate
         (before ++ EvLog ERROR (LogOriginateFailed e) :: after_it) = false.
Proof.
  intros H. rewrite dispatch_eq. unfold dispatch_call, bind at 1. rewrite H.
  destruct (emits_connect (fun ev => sends_originate ev = false)
              connect_event_not_originate s) as (l1 & E1 & F1).
  rewrite H in E1. simpl in E1.
  destruct (emits_close (fun ev => sends_originate ev = false) eq_refl eq_refl
              (fst s1, after (snd s1) [EvLog ERROR (LogOriginateFailed e)]))
    as (l2 & E2 & F2).
  exists l1, l2. split.
  - simpl snd. rewrite E2. unfold wtrace at 1. simpl. unfold wtrace in E1. rewrite E1.
    now rewrite <- !app_assoc.
  - apply no_originate_among, Forall_app. split; [exact F1|].
    constructor; [reflexivity | exact F2].
Qed.

End FailedConnect.

(** C2, as the code has it. For an event with the integer priority [p],
    the handler returns normally and: it sets out to open a
    control-protocol session (the connection attempt to the configured host
    and port is among its effects) if and only if [4 <= p]; an Originate
    block is sent only if [4 <= p], and it is sent whenever [4 <= p] and
    [connect] has returned; whenever [4 <= p] and [connect] raises (the
    connection is not opened, the banner or the login response cannot be
    read, the login is rejected), the exception is logged as the failure
    of the call and no Originate block is sent; when [p <= 3] the one
    effect is the log record of the message, and the network is left
    untouched. *)
Theorem dispatch_iff_priority_at_least_4 :
  forall (cfg : config) (items : list (string * json)) (p : Z) (w : world),
    dict_lookup "priority" items = Some (JInt p) ->
    exists w',
      handle_ntfy_msg cfg (JObj items) w = (Ok tt, w')
      /\ (In (EvConnect (AMI_HOST cfg) (AMI_PORT cfg)) (performed w w') <-> 4 <= p)
      /\ (existsb sends_originate (performed w w') = true -> 4 <= p)
      /\ (4 <= p ->
          forall s1,
            connect (fresh_client cfg,
                     after w [summary p items; EvLog INFO LogHighPriority])
            = (Ok tt, s1) ->
            In (EvSend (originate_block cfg)) (performed w w')
            /\ existsb sends_originate (performed w w') = true)
      /\ (4 <= p ->
          forall e s1,
            connect (fresh_client cfg,
                     after w [summary p items; EvLog INFO LogHighPriority])
            = (Raise e, s1) ->
            In (EvLog ERROR (LogOriginateFailed e)) (performed w w')
            /\ existsb sends_originate (performed w w') = false)
      /\ (p <= 3 -> w' = after w [summary p items]).
Proof.
  intros cfg items p w H. destruct (Z_le_gt_dec p 3) as [K|K].
  - exists (after w [summary p items]). rewrite (handle_low cfg items p w H K).
    rewrite performed_after. split; [reflexivity|].
    split; [|split; [|split; [|split]]].
    + split; [|lia]. simpl. intros [E|[]]. discriminate E.
    + simpl. discriminate.
    + lia.
    + lia.
    + reflexivity.
  - assert (K' : 4 <= p) by lia.
    rewrite (handle_high cfg items p w H K'), with_object_dispatch.
    eexists. split; [reflexivity|].
    set (w2 := after w [summary p items; EvLog INFO LogHighPriority]).
    split; [|split; [|split; [|split]]].
    + split; [intros _; exact K'|]. intros _.
      destruct (dispatch_starts cfg (fresh_client cfg) w2) as [more E].
      rewrite (performed_app w _ ([summary p items; EvLog INFO LogHighPriority]
                                  ++ EvConnect (AMI_HOST cfg) (AMI_PORT cfg) :: more)).
      * apply in_or_app. right. now left.
      * unfold wtrace in E. rewrite E. unfold w2, after; simpl.
        now rewrite <- app_assoc.
    + intros _. exact K'.
    + intros _ s1 Hc.
      destruct (dispatch_sends_originate cfg _ s1 Hc) as (pre & post & E).
      rewrite (performed_app w _ ([summary p items; EvLog INFO LogHighPriority]
                                  ++ pre ++ EvSend (originate_block cfg) :: post)).
      * split.
        -- apply in_or_app. right. apply in_or_app. right. now left.
        -- rewrite !existsb_app. simpl.
           replace (Py.startswith (originate_block cfg) "Action: Originate")
             with true by reflexivity.
           now rewrite !orb_true_r.
      * unfold wtrace in E. rewrite E. unfold w2, after; simpl.
        now rewrite <- app_assoc.
    + intros _ e s1 Hc.
      destruct (dispatch_after_failed_connect cfg _ e s1 Hc)
        as (before & after_it & E & N).
      rewrite (performed_app w _
                 ([summary p items; EvLog INFO LogHighPriority]
                  ++ before ++ EvLog ERROR (LogOriginateFailed e) :: after_it)).
      * split.
        -- apply in_or_app. right. apply in_or_app. right. now left.
        -- rewrite existsb_app, N. reflexivity.
      * unfold wtrace in E. rewrite E. unfold w2, after; simpl.
        now rewrite <- app_assoc.
    + lia.
Qed.

Lemma dispatch_iff_priority_at_least_4_witness :
  (exists w',
      handle_ntfy_msg Sample.cfg (JObj [("priority", JInt 5)])
        (Sample.world_with [Accepts Sample.good_socket] []) = (Ok tt, w')
      /\ In (EvSend (originate_block Sample.cfg))
            (performed (Sample.world_with [Accepts Sample.good_socket] []) w'))
  /\ (exists w',
        handle_ntfy_msg Sample.cfg (JObj [("priority", JInt 5)])
          (Sample.world_with [Refuses (OSError TimeoutError)] []) = (Ok tt, w')
        /\ In (EvLog ERROR (LogOriginateFailed (OSError TimeoutError)))
              (performed (Sample.world_with [Refuses (OSError TimeoutError)] []) w')
        /\ existsb sends_originate
             (performed (Sample.world_with [Refuses (OSError TimeoutError)] []) w')
           = false).
Proof.
  split.
  - destruct (dispatch_iff_priority_at_least_4 Sample.cfg [("priority", JInt 5)] 5
                (Sample.world_with [Accepts Sample.good_socket] []) eq_refl)
      as (w' & H1 & _ & _ & H4 & _).
    exists w'. split; [exact H1|].
    refine (proj1 (H4 _ _ _)); [lia | vm_compute; reflexivity].
  - destruct (dispatch_iff_priority_at_least_4 Sample.cfg [("priority", JInt 5)] 5
                (Sample.world_with [Refuses (OSError TimeoutError)] []) eq_refl)
      as (w' & H1 & _ & _ & _ & H5 & _).
    exists w'. split; [exact H1|].
    refine (H5 _ (OSError TimeoutError) _ _); [lia | vm_compute; reflexivity].
Defined.

(** C2, the claim as stated fails: at priority 5, when the server refuses
    the connection, no session is open and no Originate block is sent; the
    failure is logged and the handler returns. *)
Lemma high_priority_without_originate :
  let w := Sample.world_with [Refuses (OSError ConnectionRefusedError)] [] in
  let msg := JObj [("priority", JInt 5)] in
  handle_ntfy_msg Sample.cfg msg w
  = (Ok tt,
     after (Sample.world_with [] [])
       [summary 5 [("priority", JInt 5)];
        EvLog INFO LogHighPriority;
        EvConnect "pbx" 5038;
        EvLog ERROR (LogOriginateFailed (OSError ConnectionRefusedError))])
  /\ existsb sends_originate (performed w (snd (handle_ntfy_msg Sample.cfg msg w)))
     = false.
Proof. split; vm_compute; reflexivity. Qed.

Section DispatchFailure.

Variable cfg : config.

Lemma connect_raises_call s e s1 :
  connect s = (Raise e, s1) -> dispatch_call cfg s = (Raise e, s1).
Proof. intros H. unfold dispatch_call, bind. now rewrite H. Qed.

Lemma originate_raises_call s s0 e s1 :
  connect s = (Ok tt, s0) ->
  originate_simple (DIAL_STRING cfg) (EXTENSION cfg) (CONTEXT cfg)
                   (PRIORITY cfg) (CALLERID cfg) (TIMEOUT_MS cfg) s0
  = (Raise e, s1) ->
  dispatch_call cfg s = (Raise e, s1).
Proof. intros H1 H2. unfold dispatch_call, bind. now rewrite H1, H2. Qed.

(** A call that raises is logged and the dispatch returns normally. *)
Lemma dispatch_logs_failure s e s1 :
  dispatch_call cfg s = (Raise e, s1) ->
  exists s',
    dispatch cfg s = (Ok tt, s')
    /\ In (EvLog ERROR (LogOriginateFailed e)) (performed (snd s) (snd s')).
Proof.
  intros H. rewrite dispatch_eq, H. eexists. split; [reflexivity|]. simpl snd.
  destruct (emits_extends wtrace session_event (dispatch_call cfg) s) as [l1 E1].
  { apply emits_dispatch_call. }
  rewrite H in E1. simpl in E1.
  match goal with |- context [close ?x] =>
    destruct (emits_extends wtrace (fun _ => True) close x) as [l2 E2]
  end.
  { now apply emits_close. }
  rewrite (performed_app _ _ (l1 ++ EvLog ERROR (LogOriginateFailed e) :: l2)).
  - apply in_or_app. right. now left.
  - unfold wtrace in *. rewrite E2. simpl. rewrite E1.
    now rewrite <- !app_assoc.
Qed.

Lemma connect_login_ok_open s s1 : connect_login s = (Ok tt, s1) -> sock_open s1.
Proof.
  destruct s as [self w]. intros H.
  destruct (net w) as [|[e|sk] rest] eqn:En.
  - destruct (connect_login_refused self w) as [e E]; [rewrite En; discriminate|].
    rewrite E in H. discriminate.
  - destruct (connect_login_refused self w) as [e' E]; [rewrite En; discriminate|].
    rewrite E in H. discriminate.
  - pose proof (connect_login_opens self w sk rest En) as K. now rewrite H in K.
Qed.

(** Whenever the connection was accepted, a dispatch ends with the logoff
    and the closing of the socket. *)
Lemma dispatch_closes_socket self w sk rest :
  net w = Accepts sk :: rest ->
  exists pre,
    performed w (snd (snd (dispatch cfg (self, w))))
    = (pre ++ [EvSend logoff_block; EvSockClose])%list.
Proof.
  intros H. rewrite dispatch_eq. simpl snd.
  assert (Ho : sock_open (snd (dispatch_call cfg (self, w)))).
  { unfold dispatch_call. apply bind_from.
    - now apply (connect_opens self w sk rest).
    - intros _. apply preserves_bind; [apply preserves_open_originate|].
      intros _. apply preserves_open_in_world. }
  destruct (emits_extends wtrace session_event (dispatch_call cfg) (self, w))
    as [l1 E1].
  { apply emits_dispatch_call. }
  destruct (dispatch_call cfg (self, w)) as [[u|e] [self1 w1]];
    destruct (open_inv _ Ho) as [sk1 Hs]; simpl in Hs, E1; unfold wtrace in E1;
    simpl in E1.
  - rewrite (close_open self1 w1 sk1 Hs). simpl.
    exists l1. apply performed_app. simpl. rewrite E1. now rewrite <- app_assoc.
  - simpl fst. simpl snd. rewrite (close_open self1 _ sk1 Hs). simpl.
    exists (l1 ++ [EvLog ERROR (LogOriginateFailed e)])%list.
    apply performed_app. simpl. rewrite E1. now rewrite <- !app_assoc.
Qed.

End DispatchFailure.

(** C5. When the login has been sent and the response read back does not
    contain [Success], [connect] raises the login failure, a [RuntimeError]
    that carries the response and stands for the authentication failure of
    the specification; nothing sent on
    the session so far is an Originate block; and the dispatch goes on to
    log the failure, to send the logoff, to close the socket and to clear
    the socket field, returning normally with no Originate sent. On every
    path of a dispatch the socket field ends cleared, and a dispatch whose
    connection was accepted ends with the logoff and the closing of the
    socket. *)
Theorem login_failure_raises_before_originate :
  forall (cfg : config) (s s1 s2 : AMIClient * world) (response : string),
    connect_login s = (Ok tt, s1) ->
    _read_until_blank s1 = (Ok response, s2) ->
    ~ is_substring "Success" response ->
    let failure := RuntimeError ("AMI login failed: " ++ Py.bytes_repr response) in
    connect s = (Raise failure, s2)
    /\ authentication_failure failure
    /\ existsb sends_originate (performed (snd s) (snd s2)) = false
    /\ dispatch cfg s
       = (Ok tt,
          (with_sock (fst s2) None,
           after (snd s2) [EvLog ERROR (LogOriginateFailed failure);
                           EvSend logoff_block; EvSockClose]))
    /\ (forall s0, sock (fst (snd (dispatch cfg s0))) = None)
    /\ (forall self w sk rest,
          net w = Accepts sk :: rest ->
          exists pre,
            performed w (snd (snd (dispatch cfg (self, w))))
            = (pre ++ [EvSend logoff_block; EvSockClose])%list).
Proof.
  intros cfg s s1 s2 response H1 H2 H3 failure.
  apply not_contains_spec in H3.
  assert (Hc : connect s = (Raise failure, s2)).
  { unfold connect. unfold bind at 1. rewrite H1. unfold bind. rewrite H2.
    unfold check_login. rewrite H3. reflexivity. }
  split; [exact Hc|]. split; [now exists response|]. split; [|split; [|split]].
  - destruct (emits_connect connect_event (fun ev H => H) s) as (added & E & F).
    rewrite Hc in E. simpl in E. rewrite (performed_app _ _ added E).
    clear E. induction F as [|ev l Hev F IH]; [reflexivity|].
    simpl. now rewrite (connect_event_not_originate ev Hev), IH.
  - rewrite dispatch_eq, (connect_raises_call cfg s failure s2 Hc).
    assert (Ho : sock_open s2).
    { pose proof (preserves_open_read s1 (connect_login_ok_open s s1 H1)) as K.
      now rewrite H2 in K. }
    destruct (open_inv _ Ho) as [sk Hs]. destruct s2 as [self2 w2]. simpl in Hs.
    simpl fst. simpl snd. rewrite (close_open self2 _ sk Hs). simpl.
    now rewrite after_after.
  - intros s0. apply dispatch_clears.
  - intros self w sk rest. apply dispatch_closes_socket.
Qed.

Lemma login_failure_raises_before_originate_witness :
  connect (Sample.client None, Sample.world_with [Accepts Sample.rejecting_socket] [])
  = (Raise (RuntimeError ("AMI login failed: " ++ Py.bytes_repr Sample.failure)),
     snd (_read_until_blank
            (snd (connect_login
                    (Sample.client None,
                     Sample.world_with [Accepts Sample.rejecting_socket] []))))).
Proof.
  refine (proj1 (login_failure_raises_before_originate Sample.cfg
                   (Sample.client None,
                    Sample.world_with [Accepts Sample.rejecting_socket] [])
                   _ _ Sample.failure _ _ _)).
  - vm_compute. reflexivity.
  - vm_compute. reflexivity.
  - apply not_contains_spec. vm_compute. reflexivity.
Defined.

(* ===================================================================== *)
(** * The subscriber *)
(* ===================================================================== *)

Section Subscriber.

Variable cfg : config.
Variable decode : string -> string.
Variable loads : string -> result json.

Lemma process_line_skip line w :
  Py.startswith (Py.strip (decode line)) "data: " = false ->
  process_line cfg decode loads line w = (Ok tt, w).
Proof. intros H. unfold process_line. cbv zeta. now rewrite H. Qed.

Lemma process_line_json line msg w :
  Py.startswith (Py.strip (decode line)) "data: " = true ->
  loads (Py.drop 6 (Py.strip (decode line))) = Ok msg ->
  process_line cfg decode loads line w = handle_ntfy_msg cfg msg w.
Proof.
  intros H1 H2. unfold process_line. cbv zeta. rewrite H1. cbn [negb].
  unfold bind, try_except, lift_result. now rewrite H2.
Qed.


(** Any other exception of [json.loads] leaves the loop. *)
Lemma process_line_error line e w :
  Py.startswith (Py.strip (decode line)) "data: " = true ->
  loads (Py.drop 6 (Py.strip (decode line))) = Raise e ->
  is_JSONDecodeError e = false ->
  process_line cfg decode loads line w = (Raise e, w).
Proof.
  intros H1 H2 H3. unfold process_line. cbv zeta. rewrite H1. cbn [negb].
  unfold bind, try_except, lift_result. now rewrite H2, H3.
Qed.

Lemma process_lines_cons line rest w w1 :
  process_line cfg decode loads line w = (Ok tt, w1) ->
  process_lines cfg decode loads (line :: rest) w
  = process_lines cfg decode loads rest w1.
Proof. intros H. simpl. unfold bind. now rewrite H. Qed.

Lemma process_lines_raise line rest w e w1 :
  process_line cfg decode loads line w = (Raise e, w1) ->
  process_lines cfg decode loads (line :: rest) w = (Raise e, w1).
Proof. intros H. simpl. unfold bind. now rewrite H. Qed.

End Subscriber.




(** C4. An exception raised by [connect], or by [originate_simple] after
    [connect] has returned, is caught inside the dispatch: the dispatch
    returns normally and the failure is among the records it logs. A
    dispatch returns normally whatever the network does; so does the
    handler on a message with an integer priority; and the stream loop of
    the subscriber, after a frame that carries such a message, goes on with
    the next line. *)
Theorem dispatch_failure_does_not_propagate :
  forall (cfg : config) (decode : string -> string) (loads : string -> result json),
    (forall s e s1,
        (connect s = (Raise e, s1)
         \/ exists s0,
              connect s = (Ok tt, s0)
              /\ originate_simple (DIAL_STRING cfg) (EXTENSION cfg) (CONTEXT cfg)
                   (PRIORITY cfg) (CALLERID cfg) (TIMEOUT_MS cfg) s0
                 = (Raise e, s1)) ->
        exists s',
          dispatch cfg s = (Ok tt, s')
          /\ In (EvLog ERROR (LogOriginateFailed e)) (performed (snd s) (snd s')))
    /\ (forall s, exists s', dispatch cfg s = (Ok tt, s'))
    /\ (forall items p w,
          dict_lookup "priority" items = Some (JInt p) ->
          exists w', handle_ntfy_msg cfg (JObj items) w = (Ok tt, w'))
    /\ (forall line rest items p w,
          Py.startswith (Py.strip (decode line)) "data: " = true ->
          loads (Py.drop 6 (Py.strip (decode line))) = Ok (JObj items) ->
          dict_lookup "priority" items = Some (JInt p) ->
          exists w1,
            process_line cfg decode loads line w = (Ok tt, w1)
            /\ process_lines cfg decode loads (line :: rest) w
               = process_lines cfg decode loads rest w1).
Proof.
  intros cfg decode loads. split; [|split; [|split]].
  - intros s e s1 [H | (s0 & H0 & H)]; apply (dispatch_logs_failure cfg s e s1).
    + now apply connect_raises_call.
    + now apply (originate_raises_call cfg s s0).
  - apply dispatch_returns.
  - intros items p w H. apply handle_returns. left. exists p, items. now split.
  - intros line rest items p w H1 H2 H3.
    destruct (handle_returns cfg (JObj items) w) as [w1 E].
    { left. exists p, items. now split. }
    exists w1. rewrite <- E.
    pose proof (process_line_json cfg decode loads line _ w H1 H2) as K.
    split; [exact K|]. apply process_lines_cons. now rewrite K.
Qed.

Lemma dispatch_failure_does_not_propagate_witness :
  (exists s',
      dispatch Sample.cfg
        (Sample.client None, Sample.world_with [Refuses (OSError ConnectionRefusedError)] [])
      = (Ok tt, s')
      /\ In (EvLog ERROR (LogOriginateFailed (OSError ConnectionRefusedError)))
            (performed (Sample.world_with [Refuses (OSError ConnectionRefusedError)] [])
                       (snd s')))
  /\ (exists w',
        handle_ntfy_msg Sample.cfg (JObj [("priority", JInt 5)])
          (Sample.world_with [Accepts Sample.rejecting_socket] [])
        = (Ok tt, w'))
  /\ (exists w1,
        process_line Sample.cfg Sample.decode Sample.loads (Sample.frame "5")
          (Sample.world_with [Refuses (OSError TimeoutError)] [])
        = (Ok tt, w1)
        /\ process_lines Sample.cfg Sample.decode Sample.loads
             [Sample.frame "5"; Sample.frame "2"]
             (Sample.world_with [Refuses (OSError TimeoutError)] [])
           = process_lines Sample.cfg Sample.decode Sample.loads
               [Sample.frame "2"] w1).
Proof.
  destruct (dispatch_failure_does_not_propagate Sample.cfg Sample.decode Sample.loads)
    as (H1 & _ & H3 & H4).
  split; [|split].
  - refine (H1 _ (OSError ConnectionRefusedError) _ (or_introl _)).
    vm_compute. reflexivity.
  - exact (H3 [("priority", JInt 5)] 5 _ eq_refl).
  - exact (H4 (Sample.frame "5") [Sample.frame "2"] [("priority", JInt 5)] 5 _
              eq_refl eq_refl eq_refl).
Defined.

(** C10. On a client whose socket field is [None], [_send],
    [_read_until_blank] and [originate_simple] raise
    [RuntimeError("AMI connection not open")] and touch neither the client
    nor the world. A client that was never connected is in that state, and
    so is every client after [close], which always leaves the field
    cleared. *)
Theorem operations_on_closed_client_raise :
  forall (self : AMIClient) (w : world),
    sock self = None ->
    let not_open := RuntimeError "AMI connection not open" in
    (forall cmd, _send cmd (self, w) = (Raise not_open, (self, w)))
    /\ _read_until_blank (self, w) = (Raise not_open, (self, w))
    /\ (forall channel exten context priority callerid timeout_ms,
          originate_simple channel exten context priority callerid timeout_ms (self, w)
          = (Raise not_open, (self, w)))
    /\ (forall h p user pass, sock (AMIClient_init h p user pass) = None)
    /\ (forall s, sock (fst (snd (close s))) = None)
    /\ (forall s cmd,
          _send cmd (snd (close s)) = (Raise not_open, snd (close s))
          /\ _read_until_blank (snd (close s)) = (Raise not_open, snd (close s))).
Proof.
  intros self w H not_open. split; [|split; [|split; [|split; [|split]]]].
  - intros cmd. now apply send_closed.
  - now apply read_closed.
  - intros. now apply originate_closed.
  - reflexivity.
  - apply close_clears.
  - intros s cmd. pose proof (close_clears s) as K.
    destruct (snd (close s)) as [self' w']. simpl in K.
    split; [now apply send_closed | now apply read_closed].
Qed.

Lemma operations_on_closed_client_raise_witness :
  originate_simple "PJSIP/1000" "1000" "from-internal" 1 "NTFY Bridge <7777>" 30000
    (Sample.client None, Sample.world0)
  = (Raise (RuntimeError "AMI connection not open"),
     (Sample.client None, Sample.world0)).
Proof.
  exact (proj1 (proj2 (proj2
           (operations_on_closed_client_raise (Sample.client None) Sample.world0
              eq_refl)))
           "PJSIP/1000" "1000" "from-internal" 1 "NTFY Bridge <7777>" 30000).
Defined.

(** C8, as the code has it. [close] always leaves the socket field
    cleared. On a client without a socket it does nothing and returns. On a
    client with a socket it sends the logoff, whose failure is dropped,
    then closes the socket whether or not the logoff went out, and returns;
    only a failure of the socket's own [close] is raised, after the field
    has been cleared. A second [close] in a row, and a [close] on a client
    that never connected, do nothing and return. *)
Theorem close_contract :
  forall (self : AMIClient) (w : world),
    sock (fst (snd (close (self, w)))) = None
    /\ (sock self = None -> close (self, w) = (Ok tt, (self, w)))
    /\ (forall sk,
          sock self = Some sk ->
          close (self, w)
          = (match sock_close_error sk with
             | Some e => Raise (OSError e)
             | None => Ok tt
             end,
             (with_sock self None, after w [EvSend logoff_block; EvSockClose])))
    /\ close (snd (close (self, w))) = (Ok tt, snd (close (self, w)))
    /\ (forall h p user pass,
          close (AMIClient_init h p user pass, w)
          = (Ok tt, (AMIClient_init h p user pass, w))).
Proof.
  intros self w. split; [apply close_clears|]. split; [apply close_closed|].
  split; [apply close_open|]. split.
  - pose proof (close_clears (self, w)) as K.
    destruct (snd (close (self, w))) as [self' w']. now apply close_closed.
  - intros. now apply close_closed.
Qed.

Lemma close_contract_witness :
  close (Sample.client None, Sample.world0) = (Ok tt, (Sample.client None, Sample.world0))
  /\ close (Sample.client (Some Sample.good_socket), Sample.world0)
     = (Ok tt, (Sample.client None,
                after Sample.world0 [EvSend logoff_block; EvSockClose])).
Proof.
  destruct (close_contract (Sample.client None) Sample.world0) as (_ & H2 & _).
  destruct (close_contract (Sample.client (Some Sample.good_socket)) Sample.world0)
    as (_ & _ & H3 & _).
  split; [exact (H2 eq_refl) | exact (H3 Sample.good_socket eq_refl)].
Defined.

(** C8, the claim as stated fails: on a connected client whose socket
    cannot be closed cleanly, [close] raises. *)
Lemma close_propagates_socket_close_failure :
  close (Sample.client (Some Sample.broken_socket), Sample.world0)
  = (Raise (OSError (OtherOSError 5)),
     (Sample.client None,
      after Sample.world0 [EvSend logoff_block; EvSockClose])).
Proof. vm_compute. reflexivity. Qed.

(* ===================================================================== *)
(** * The reading loop *)
(* ===================================================================== *)

Section Reader.

(** The loop takes the chunks up to the first one that is empty or holds
    the terminator within itself, and stops there. *)
Lemma read_outcome_stops (pre : list string) :
  forall data post chunks,
    Forall chunk_goes_on pre -> chunk_stops data ->
    read_outcome (map RecvData pre ++ RecvData data :: post) chunks
    = (Ok (chunks ++ pre
           ++ (if String.eqb data EmptyString then [] else [data]))%list,
       post, S (List.length pre)).
Proof.
  induction pre as [|c pre IH]; intros data post chunks Hpre Hd; simpl.
  - destruct (String.eqb_spec data EmptyString) as [E|E].
    + now rewrite app_nil_r.
    + destruct Hd as [Hd|Hd]; [contradiction | now rewrite Hd].
  - inversion Hpre as [|? ? [Hc1 Hc2] Hpre']; subst.
    destruct (String.eqb_spec c EmptyString) as [E|_]; [contradiction|].
    rewrite Hc2, (IH data post (chunks ++ [c])%list Hpre' Hd).
    now rewrite <- app_assoc.
Qed.

(** While no chunk stops it, the loop reads on, until a [recv] fails. *)
Lemma read_outcome_runs_out (pre : list string) :
  forall chunks,
    Forall chunk_goes_on pre ->
    read_outcome (map RecvData pre) chunks
    = (Raise (OSError TimeoutError), [], S (List.length pre)).
Proof.
  induction pre as [|c pre IH]; intros chunks Hpre; simpl; [reflexivity|].
  inversion Hpre as [|? ? [Hc1 Hc2] Hpre']; subst.
  destruct (String.eqb_spec c EmptyString) as [E|_]; [contradiction|].
  now rewrite Hc2, (IH _ Hpre').
Qed.

End Reader.

(** C6, the reader at a terminator cut in two. The login reply arrives as
    [Response: Success\r\n] and then [\r\n]: after the second chunk the
    bytes accumulated hold the terminator, yet the loop asks for a third
    chunk, and the read times out. The test for the terminator looks at
    the chunk just received, so neither chunk stops the loop. *)
Theorem split_terminator_is_not_seen :
  let first := "Response: Success" ++ Py.CRLF in
  let second := Py.CRLF in
  sock_recvs Sample.split_socket = [RecvData first; RecvData second]
  /\ is_substring Py.BLANK (Py.join EmptyString [first; second])
  /\ chunk_goes_on first /\ chunk_goes_on second
  /\ _read_until_blank (Sample.client (Some Sample.split_socket), Sample.world0)
     = (Raise (OSError TimeoutError),
        (Sample.client (Some (set_recvs Sample.split_socket [])),
         after Sample.world0 [EvSetTimeout 10; EvRecv; EvRecv; EvRecv]))
  /\ connect (Sample.client None,
              Sample.world_with
                [Accepts (set_recvs Sample.split_socket
                            (RecvData Sample.banner
                             :: sock_recvs Sample.split_socket))] [])
     = (Raise (OSError TimeoutError),
        (Sample.client (Some (set_recvs Sample.split_socket [])),
         after (Sample.world_with [] [])
           [EvConnect "pbx" 5038; EvRecv;
            EvSend (login_block (Sample.client None));
            EvSetTimeout 10; EvRecv; EvRecv; EvRecv])).
Proof.
  intros first second. split; [reflexivity|]. split; [|split; [|split; [|split]]].
  - apply contains_spec. vm_compute. reflexivity.
  - split; [discriminate | vm_compute; reflexivity].
  - split; [discriminate | vm_compute; reflexivity].
  - vm_compute. reflexivity.
  - vm_compute. reflexivity.
Qed.

(* ===================================================================== *)
(** * The supervisor loop *)
(* ===================================================================== *)

Section Supervisor.

Variable cfg : config.
Variable decode : string -> string.
Variable loads : string -> result json.

Lemma emits_handle msg : emits_only trace session_event (handle_ntfy_msg cfg msg).
Proof.
  unfold handle_ntfy_msg.
  apply emits_bind; [apply emits_lift_result | intros p].
  apply emits_bind; [apply emits_lift_result | intros prio].
  apply emits_bind; [apply emits_lift_result | intros title].
  apply emits_bind; [apply emits_lift_result | intros body].
  apply emits_bind; [apply emits_emit; exact I | intros _].
  destruct (prio >=? 4); [|apply emits_ret].
  apply emits_bind; [apply emits_emit; exact I | intros _].
  apply emits_with_object, emits_dispatch.
Qed.

Lemma emits_process_line line :
  emits_only trace session_event (process_line cfg decode loads line).
Proof.
  unfold process_line. cbv zeta. destruct (negb _); [apply emits_ret|].
  apply emits_bind.
  - apply emits_try_except.
    + apply emits_bind; [apply emits_lift_result | intros msg; apply emits_ret].
    + intros e h. destruct (is_JSONDecodeError e); [|discriminate].
      intros E. injection E as <-.
      apply emits_bind; [apply emits_emit; exact I | intros _; apply emits_ret].
  - intros [msg|]; [apply emits_handle | apply emits_ret].
Qed.

Lemma emits_process_lines lines :
  emits_only trace session_event (process_lines cfg decode loads lines).
Proof.
  induction lines as [|line rest IH]; simpl; [apply emits_ret|].
  apply emits_bind; [apply emits_process_line | intros _; exact IH].
Qed.

Lemma emits_read_stream a :
  emits_only trace session_event (read_stream cfg decode loads a).
Proof.
  destruct a as [e|status lines ending]; simpl; [apply emits_raise|].
  apply emits_bind.
  - unfold raise_for_status. destruct (400 <=? status);
      [apply emits_raise | apply emits_ret].
  - intros _. apply emits_bind; [apply emits_process_lines | intros _].
    destruct ending; [apply emits_ret | apply emits_raise].
Qed.

Lemma subscribe_eq w :
  subscribe_ntfy cfg decode loads w
  = read_stream cfg decode loads (met w) (subscribed cfg w).
Proof.
  unfold subscribe_ntfy, bind, log, emit, http_get, met, subscribed; simpl.
  now rewrite <- app_assoc.
Qed.

(** A subscription logs, opens the stream, and from then on only runs
    sessions and logs. *)
Lemma subscribe_trace w :
  exists more,
    trace (snd (subscribe_ntfy cfg decode loads w))
    = (trace w ++ EvLog INFO (LogSubscribing (sse_url cfg))
               :: EvHttpGet (sse_url cfg) :: more)%list
    /\ Forall session_event more.
Proof.
  rewrite subscribe_eq.
  destruct (emits_read_stream (met w) (subscribed cfg w)) as (more & E & F).
  exists more. split; [|exact F]. rewrite E. simpl. now rewrite <- app_assoc.
Qed.

Lemma main_turn_eq w :
  main_turn cfg decode loads w
  = match subscribe_ntfy cfg decode loads w with
    | (Ok _, w1) => (Ok tt, w1)
    | (Raise e, w1) =>
        if is_ClientError e
        then (Ok tt, after w1 [EvLog WARNING (LogSseError e); EvSleep 3])
        else (Ok tt, after w1 [EvLog ERROR (LogUnexpected e); EvSleep 5])
    end.
Proof.
  unfold main_turn, try_except.
  destruct (subscribe_ntfy cfg decode loads w) as [[u|e] w1].
  - now destruct u.
  - destruct (is_ClientError e); simpl; unfold bind, log, sleep, emit, after; simpl;
      now rewrite <- app_assoc.
Qed.

Lemma session_event_no_subscription more :
  Forall session_event more -> subscriptions more = 0%nat.
Proof.
  unfold subscriptions. induction 1 as [|ev l Hev F IH]; [reflexivity|].
  simpl. destruct ev; simpl in *; try exact IH; contradiction.
Qed.

Lemma subscriptions_app l1 l2 :
  subscriptions (l1 ++ l2) = (subscriptions l1 + subscriptions l2)%nat.
Proof. unfold subscriptions. now rewrite filter_app, length_app. Qed.

(** One turn: it returns normally and has opened exactly one
    subscription, with which it starts. *)
Lemma main_turn_spec w :
  exists w1 more,
    main_turn cfg decode loads w = (Ok tt, w1)
    /\ trace w1 = (trace w ++ EvLog INFO (LogSubscribing (sse_url cfg))
                           :: EvHttpGet (sse_url cfg) :: more)%list
    /\ subscriptions more = 0%nat.
Proof.
  rewrite main_turn_eq. destruct (subscribe_trace w) as (more & E & F).
  pose proof (session_event_no_subscription more F) as Z.
  destruct (subscribe_ntfy cfg decode loads w) as [[u|e] w1]; simpl in E.
  - exists w1, more. now repeat split.
  - destruct (is_ClientError e).
    + exists (after w1 [EvLog WARNING (LogSseError e); EvSleep 3]),
             (more ++ [EvLog WARNING (LogSseError e); EvSleep 3])%list.
      split; [reflexivity|]. split.
      * simpl. rewrite E. now rewrite <- app_assoc.
      * rewrite subscriptions_app, Z. reflexivity.
    + exists (after w1 [EvLog ERROR (LogUnexpected e); EvSleep 5]),
             (more ++ [EvLog ERROR (LogUnexpected e); EvSleep 5])%list.
      split; [reflexivity|]. split.
      * simpl. rewrite E. now rewrite <- app_assoc.
      * rewrite subscriptions_app, Z. reflexivity.
Qed.

(** Any number of turns run to their end, each opening a subscription. *)
Lemma main_runs (turns : nat) :
  forall w, exists w',
    main cfg decode loads turns w = (Ok tt, w')
    /\ subscriptions (performed w w') = turns.
Proof.
  induction turns as [|n IH]; intros w.
  - exists w. split; [reflexivity|]. unfold performed.
    now rewrite skipn_all.
  - destruct (main_turn_spec w) as (w1 & more & E1 & T1 & Z1).
    destruct (IH w1) as (w' & E & Hn).
    exists w'. split.
    + simpl. unfold bind. now rewrite E1.
    + assert (T : trace w' = (trace w1 ++ performed w1 w')%list).
      { unfold performed.
        destruct (emits_extends trace (fun _ => True)
                    (main cfg decode loads n) w1) as [l El].
        - clear. induction n as [|n IHn]; simpl; [apply emits_ret|].
          apply emits_bind; [|intros _; exact IHn].
          apply emits_try_except.
          + unfold subscribe_ntfy.
            apply emits_bind; [now apply emits_emit | intros _].
            apply emits_bind.
            * intros w. eexists [_]. unfold http_get; simpl.
              split; [reflexivity | now constructor].
            * intros a. eapply emits_weaken; [|apply emits_read_stream]. tauto.
          + intros e h. destruct (is_ClientError e); intros K;
              injection K as <-;
              (apply emits_bind; [now apply emits_emit | intros _;
                                  now apply emits_emit]).
        - rewrite E in El. simpl in El. rewrite El.
          now rewrite skipn_length_app. }
      rewrite (performed_app w w'
                 ((EvLog INFO (LogSubscribing (sse_url cfg))
                   :: EvHttpGet (sse_url cfg) :: more) ++ performed w1 w')).
      * rewrite subscriptions_app, Hn. unfold subscriptions in *. simpl.
        now rewrite Z1.
      * rewrite T, T1. now rewrite <- app_assoc.
Qed.

End Supervisor.

(** C9. When the subscriber raises an HTTP client error, the turn of the
    loop logs a warning, waits 3 and ends normally; when it raises anything
    else, the turn logs the error, waits 5 and ends normally. Every turn
    ends normally and starts by subscribing, and the next turn follows it;
    so for every number of turns the loop is still running after them, no
    exception has left it, and it has subscribed that many times. *)
Theorem supervisor_loop_retries_forever :
  forall (cfg : config) (decode : string -> string) (loads : string -> result json),
    (forall w e w1,
        subscribe_ntfy cfg decode loads w = (Raise e, w1) ->
        is_ClientError e = true ->
        main_turn cfg decode loads w
        = (Ok tt, after w1 [EvLog WARNING (LogSseError e); EvSleep 3]))
    /\ (forall w e w1,
          subscribe_ntfy cfg decode loads w = (Raise e, w1) ->
          is_ClientError e = false ->
          main_turn cfg decode loads w
          = (Ok tt, after w1 [EvLog ERROR (LogUnexpected e); EvSleep 5]))
    /\ (forall w, exists w1 more,
          main_turn cfg decode loads w = (Ok tt, w1)
          /\ performed w w1
             = EvLog INFO (LogSubscribing (sse_url cfg))
               :: EvHttpGet (sse_url cfg) :: more
          /\ forall turns,
               main cfg decode loads (S turns) w = main cfg decode loads turns w1)
    /\ (forall turns w, exists w',
          main cfg decode loads turns w = (Ok tt, w')
          /\ subscriptions (performed w w') = turns).
Proof.
  intros cfg decode loads. split; [|split; [|split]].
  - intros w e w1 H He. now rewrite main_turn_eq, H, He.
  - intros w e w1 H He. now rewrite main_turn_eq, H, He.
  - intros w. destruct (main_turn_spec cfg decode loads w) as (w1 & more & E & T & _).
    exists w1, more. split; [exact E|]. split; [now apply performed_app|].
    intros turns. simpl. unfold bind. now rewrite E.
  - intros turns w. apply main_runs.
Qed.

Lemma supervisor_loop_retries_forever_witness :
  main_turn Sample.cfg Sample.decode Sample.loads
    (Sample.world_with [] [GetFails (ClientError "Server disconnected")])
  = (Ok tt,
     after (Sample.world_with [] [])
       [EvLog INFO (LogSubscribing "https://ntfy.sh/alerts/sse");
        EvHttpGet "https://ntfy.sh/alerts/sse";
        EvLog WARNING (LogSseError (ClientError "Server disconnected"));
        EvSleep 3])
  /\ main_turn Sample.cfg Sample.decode Sample.loads
       (Sample.world_with []
          [Response 200 [] (StreamError (OtherException "TimeoutError" ""))])
     = (Ok tt,
        after (Sample.world_with [] [])
          [EvLog INFO (LogSubscribing "https://ntfy.sh/alerts/sse");
           EvHttpGet "https://ntfy.sh/alerts/sse";
           EvLog ERROR (LogUnexpected (OtherException "TimeoutError" ""));
           EvSleep 5]).
Proof.
  destruct (supervisor_loop_retries_forever Sample.cfg Sample.decode Sample.loads)
    as (H3 & H5 & _).
  split.
  - refine (eq_trans (H3 _ (ClientError "Server disconnected") _ _ eq_refl) _);
      vm_compute; reflexivity.
  - refine (eq_trans (H5 _ (OtherException "TimeoutError" "") _ _ eq_refl) _);
      vm_compute; reflexivity.
Defined.

(** C1, the handler at a priority that is not a number. With the field
    absent the priority is 3 and nothing is dispatched. With the field set
    to the text [high], or to [null], [int()] raises and the exception
    leaves the handler before anything is logged; it then leaves the stream
    loop, so that the frames that follow on the stream are never handled,
    and reaches the supervisor loop, which waits 5 and subscribes anew. *)
Theorem non_numeric_priority_raises_out_of_handler :
  forall (cfg : config) (w : world),
    handle_ntfy_msg cfg (JObj []) w = (Ok tt, after w [summary 3 []])
    /\ handle_ntfy_msg cfg (JObj [("priority", JStr "high")]) w
       = (Raise (ValueError "invalid literal for int() with base 10"), w)
    /\ handle_ntfy_msg cfg (JObj [("priority", JNull)]) w
       = (Raise (TypeError
            "int() argument must be a string, a bytes-like object or a real number"),
          w)
    /\ process_lines cfg Sample.decode Sample.loads
         [Sample.frame (Sample.quoted "high"); Sample.frame "5"] w
       = (Raise (ValueError "invalid literal for int() with base 10"), w)
    /\ main_turn Sample.cfg Sample.decode Sample.loads
         (Sample.world_with [Accepts Sample.good_socket]
            [Response 200 [Sample.frame (Sample.quoted "high"); Sample.frame "5"]
                      EndOfStream])
       = (Ok tt,
          after (Sample.world_with [Accepts Sample.good_socket] [])
            [EvLog INFO (LogSubscribing "https://ntfy.sh/alerts/sse");
             EvHttpGet "https://ntfy.sh/alerts/sse";
             EvLog ERROR (LogUnexpected
                            (ValueError "invalid literal for int() with base 10"));
             EvSleep 5]).
Proof.
  intros cfg w. split; [|split; [|split; [|split]]].
  - now apply handle_missing.
  - reflexivity.
  - reflexivity.
  - apply process_lines_raise.
    now rewrite (process_line_json cfg Sample.decode Sample.loads _
                   (JObj [("priority", JStr "high")])).
  - vm_compute. reflexivity.
Qed.

(* ===================================================================== *)
(** * Further properties: the reading loop *)
(* ===================================================================== *)

Section ReaderMore.

Lemma join_cons (x : string) (l : list string) :
  Py.join EmptyString (x :: l) = x ++ Py.join EmptyString l.
Proof.
  unfold Py.join. destruct l as [|y l]; simpl; [now rewrite append_nil_r | reflexivity].
Qed.

Lemma join_app (l1 l2 : list string) :
  Py.join EmptyString (l1 ++ l2)
  = Py.join EmptyString l1 ++ Py.join EmptyString l2.
Proof.
  induction l1 as [|x l1 IH]; [reflexivity|].
  change ((x :: l1) ++ l2)%list with (x :: (l1 ++ l2))%list.
  now rewrite !join_cons, IH, append_assoc.
Qed.

Lemma join_last (pre : list string) (data : string) :
  Py.join EmptyString
    (pre ++ (if String.eqb data EmptyString then [] else [data]))%list
  = Py.join EmptyString pre ++ data.
Proof.
  rewrite join_app. destruct (String.eqb_spec data EmptyString) as [->|_].
  - reflexivity.
  - now rewrite join_cons, append_nil_r.
Qed.

Lemma substring_append_l (sub a s : string) :
  is_substring sub s -> is_substring sub (a ++ s).
Proof. intros (x & y & ->). exists (a ++ x), y. now rewrite append_assoc. Qed.

(** A failing [recv] ends the loop with its error. *)
Lemma read_outcome_fails (pre : list string) :
  forall e post chunks,
    Forall chunk_goes_on pre ->
    read_outcome (map RecvData pre ++ RecvError e :: post) chunks
    = (Raise (OSError e), post, S (List.length pre)).
Proof.
  induction pre as [|c pre IH]; intros e post chunks Hpre; simpl; [reflexivity|].
  inversion Hpre as [|? ? [Hc1 Hc2] Hpre']; subst.
  destruct (String.eqb_spec c EmptyString) as [E|_]; [contradiction|].
  now rewrite Hc2, (IH e post _ Hpre').
Qed.

(** What a returning loop has read. *)
Lemma read_outcome_ok_inv (script : list recv_result) :
  forall chunks cs rest n,
    read_outcome script chunks = (Ok cs, rest, n) ->
    exists pre data,
      script = (map RecvData pre ++ RecvData data :: rest)%list
      /\ Forall chunk_goes_on pre /\ chunk_stops data
      /\ cs = (chunks ++ pre
               ++ (if String.eqb data EmptyString then [] else [data]))%list
      /\ n = S (List.length pre).
Proof.
  induction script as [|x script IH]; intros chunks cs rest n H; simpl in H.
  - discriminate.
  - destruct x as [data|e]; [|discriminate].
    destruct (String.eqb_spec data EmptyString) as [E|E].
    + injection H as <- <- <-. exists [], data. subst data. simpl.
      repeat split; [constructor | now left | now rewrite app_nil_r].
    + destruct (Py.contains Py.BLANK data) eqn:Hb.
      * injection H as <- <- <-. exists [], data. simpl.
        destruct (String.eqb_spec data EmptyString) as [E'|_]; [contradiction|].
        repeat split; [constructor | now right].
      * destruct (read_outcome script (chunks ++ [data])%list)
          as [[r rest'] n'] eqn:Ho.
        injection H as -> -> <-.
        destruct (IH _ _ _ _ Ho) as (pre & d & -> & Hpre & Hd & -> & ->).
        exists (data :: pre), d. simpl.
        repeat split; [now constructor | exact Hd | now rewrite <- app_assoc].
Qed.

(** The reading of one response that ends on a stopping chunk. *)
Lemma read_until_blank_run self w sk pre data post :
  sock self = Some sk ->
  sock_recvs sk = (map RecvData pre ++ RecvData data :: post)%list ->
  Forall chunk_goes_on pre -> chunk_stops data ->
  _read_until_blank (self, w)
  = (Ok (Py.join EmptyString pre ++ data),
     (with_sock self (Some (set_recvs sk post)),
      after w (EvSetTimeout 10 :: repeat EvRecv (S (List.length pre))))).
Proof.
  intros Hs Hr Hpre Hd.
  rewrite (read_until_blank_outcome self w sk Hs), Hr.
  rewrite (read_outcome_stops pre data post [] Hpre Hd). simpl app.
  now rewrite join_last.
Qed.

End ReaderMore.

(** X1. [_read_until_blank] reads chunk after chunk and stops on the first
    one that is empty (the peer has closed) or holds the terminator within
    itself: it returns the chunks received, joined, makes as many [recv]
    calls as there are chunks up to that one, and leaves what the peer sent
    after it unread on the socket. *)
Theorem read_until_blank_stops_on_first_stopping_chunk :
  forall (self : AMIClient) (w : world) (sk : socket)
         (pre : list string) (data : string) (post : list recv_result),
    sock self = Some sk ->
    sock_recvs sk = (map RecvData pre ++ RecvData data :: post)%list ->
    Forall chunk_goes_on pre ->
    chunk_stops data ->
    _read_until_blank (self, w)
    = (Ok (Py.join EmptyString pre ++ data),
       (with_sock self (Some (set_recvs sk post)),
        after w (EvSetTimeout 10 :: repeat EvRecv (S (List.length pre)))))
    /\ (data <> EmptyString ->
        is_substring Py.BLANK (Py.join EmptyString pre ++ data)).
Proof.
  intros self w sk pre data post Hs Hr Hpre Hd. split.
  - rewrite (read_until_blank_outcome self w sk Hs), Hr.
    rewrite (read_outcome_stops pre data post [] Hpre Hd). simpl app.
    now rewrite join_last.
  - intros Hne. apply substring_append_l. apply contains_spec.
    destruct Hd as [Hd|Hd]; [contradiction | exact Hd].
Qed.

Lemma read_until_blank_stops_on_first_stopping_chunk_witness :
  _read_until_blank
    (Sample.client
       (Some {| sock_recvs := [RecvData "Response: Success";
                               RecvData Sample.success;
                               RecvData Sample.queued];
                sock_sends := []; sock_close_error := None |}),
     Sample.world0)
  = (Ok ("Response: Success" ++ Sample.success),
     (Sample.client
        (Some {| sock_recvs := [RecvData Sample.queued];
                 sock_sends := []; sock_close_error := None |}),
      after Sample.world0 [EvSetTimeout 10; EvRecv; EvRecv])).
Proof.
  refine (proj1 (read_until_blank_stops_on_first_stopping_chunk
                   (Sample.client
                      (Some {| sock_recvs := [RecvData "Response: Success";
                                              RecvData Sample.success;
                                              RecvData Sample.queued];
                               sock_sends := []; sock_close_error := None |}))
                   Sample.world0
                   {| sock_recvs := [RecvData "Response: Success";
                                     RecvData Sample.success;
                                     RecvData Sample.queued];
                      sock_sends := []; sock_close_error := None |}
                   ["Response: Success"] Sample.success
                   [RecvData Sample.queued] eq_refl eq_refl _ _)).
  - constructor; [|constructor]. split; [discriminate | vm_compute; reflexivity].
  - right. vm_compute. reflexivity.
Defined.

(** X2. Whenever [_read_until_blank] returns, what it returns is the
    concatenation of the chunks it received, all of them non-empty and
    without the terminator except the last, and the last either holds the
    terminator or is the empty read of a closed connection. *)
Theorem read_until_blank_returns_terminated_or_closed :
  forall (self : AMIClient) (w : world) (sk : socket)
         (r : string) (s' : AMIClient * world),
    sock self = Some sk ->
    _read_until_blank (self, w) = (Ok r, s') ->
    exists pre data post,
      sock_recvs sk = (map RecvData pre ++ RecvData data :: post)%list
      /\ Forall chunk_goes_on pre
      /\ r = Py.join EmptyString pre ++ data
      /\ (data = EmptyString \/ (is_substring Py.BLANK data /\ is_substring Py.BLANK r))
      /\ s' = (with_sock self (Some (set_recvs sk post)),
               after w (EvSetTimeout 10 :: repeat EvRecv (S (List.length pre)))).
Proof.
  intros self w sk r s' Hs H.
  rewrite (read_until_blank_outcome self w sk Hs) in H.
  destruct (read_outcome (sock_recvs sk) []) as [[[cs|e] rest] n] eqn:Ho;
    [|discriminate].
  destruct (read_outcome_ok_inv _ _ _ _ _ Ho) as (pre & data & Hr & Hpre & Hd & -> & ->).
  injection H as <- <-. exists pre, data, rest. simpl app.
  rewrite join_last. repeat split; try assumption.
  destruct Hd as [Hd|Hd]; [now left | right].
  apply contains_spec in Hd. split; [exact Hd | now apply substring_append_l].
Qed.

Lemma read_until_blank_returns_terminated_or_closed_witness :
  exists pre data post,
    sock_recvs Sample.good_socket = (map RecvData pre ++ RecvData data :: post)%list
    /\ Forall chunk_goes_on pre
    /\ Sample.banner ++ Sample.success = Py.join EmptyString pre ++ data.
Proof.
  destruct (read_until_blank_returns_terminated_or_closed
              (Sample.client (Some Sample.good_socket)) Sample.world0
              Sample.good_socket (Sample.banner ++ Sample.success)
              (snd (_read_until_blank
                      (Sample.client (Some Sample.good_socket), Sample.world0)))
              eq_refl)
    as (pre & data & post & H1 & H2 & H3 & _).
  - vm_compute. reflexivity.
  - exists pre, data, post. now repeat split.
Defined.

(** X3. When a [recv] fails before a stopping chunk has arrived,
    [_read_until_blank] raises that [OSError] and the chunks read so far
    are not returned; when the peer sends chunks without terminator and
    then nothing more, the read that follows the last chunk times out. *)
Theorem read_until_blank_failure_loses_partial_response :
  forall (self : AMIClient) (w : world) (sk : socket) (pre : list string),
    sock self = Some sk ->
    Forall chunk_goes_on pre ->
    (forall e post,
        sock_recvs sk = (map RecvData pre ++ RecvError e :: post)%list ->
        _read_until_blank (self, w)
        = (Raise (OSError e),
           (with_sock self (Some (set_recvs sk post)),
            after w (EvSetTimeout 10 :: repeat EvRecv (S (List.length pre))))))
    /\ (sock_recvs sk = map RecvData pre ->
        _read_until_blank (self, w)
        = (Raise (OSError TimeoutError),
           (with_sock self (Some (set_recvs sk [])),
            after w (EvSetTimeout 10 :: repeat EvRecv (S (List.length pre)))))).
Proof.
  intros self w sk pre Hs Hpre. split.
  - intros e post Hr.
    rewrite (read_until_blank_outcome self w sk Hs), Hr.
    now rewrite (read_outcome_fails pre e post [] Hpre).
  - intros Hr.
    rewrite (read_until_blank_outcome self w sk Hs), Hr.
    now rewrite (read_outcome_runs_out pre [] Hpre).
Qed.

Lemma read_until_blank_failure_loses_partial_response_witness :
  _read_until_blank
    (Sample.client
       (Some {| sock_recvs := [RecvData "Response: Success";
                               RecvError ConnectionResetError];
                sock_sends := []; sock_close_error := None |}),
     Sample.world0)
  = (Raise (OSError ConnectionResetError),
     (Sample.client
        (Some {| sock_recvs := []; sock_sends := []; sock_close_error := None |}),
      after Sample.world0 [EvSetTimeout 10; EvRecv; EvRecv])).
Proof.
  refine (proj1 (read_until_blank_failure_loses_partial_response
                   (Sample.client
                      (Some {| sock_recvs := [RecvData "Response: Success";
                                              RecvError ConnectionResetError];
                               sock_sends := []; sock_close_error := None |}))
                   Sample.world0
                   {| sock_recvs := [RecvData "Response: Success";
                                     RecvError ConnectionResetError];
                      sock_sends := []; sock_close_error := None |}
                   ["Response: Success"] eq_refl _)
                ConnectionResetError [] eq_refl).
  constructor; [|constructor]. split; [discriminate | vm_compute; reflexivity].
Defined.

(* ===================================================================== *)
(** * Further properties: connect and originate *)
(* ===================================================================== *)

Section ConnectMore.

Lemma bind_ok {S A B} (m : ST S A) (k : A -> ST S B) s a s1 :
  m s = (Ok a, s1) -> bind m k s = k a s1.
Proof. intros H. unfold bind. now rewrite H. Qed.

Lemma bind_raise {S A B} (m : ST S A) (k : A -> ST S B) s e s1 :
  m s = (Raise e, s1) -> bind m k s = (Raise e, s1).
Proof. intros H. unfold bind. now rewrite H. Qed.

(** [connect] from the check of the response on. *)
Lemma connect_checks s s1 s2 response :
  connect_login s = (Ok tt, s1) ->
  _read_until_blank s1 = (Ok response, s2) ->
  connect s = check_login response s2.
Proof.
  intros H1 H2. unfold connect.
  rewrite (bind_ok _ _ _ _ _ H1). now rewrite (bind_ok _ _ _ _ _ H2).
Qed.

(** The first step of [connect] on an accepted connection: the banner is
    read and dropped, then the login goes out. *)
Lemma connect_login_banner self w sk rest banner recvs :
  net w = Accepts sk :: rest ->
  sock_recvs sk = RecvData banner :: recvs ->
  connect_login (self, w)
  = (fst (sock_sendall (set_recvs sk recvs)),
     (with_sock self (Some (snd (sock_sendall (set_recvs sk recvs)))),
      {| net := rest; http := http w;
         trace := (trace w ++ [EvConnect (host self) (port self); EvRecv;
                               EvSend (login_block self)])%list |})).
Proof.
  intros Hn Hr. rewrite (connect_login_accepts self w sk rest Hn).
  unfold bind at 1.
  rewrite (recv_open (with_sock self (Some sk)) _ sk eq_refl).
  unfold sock_recv. rewrite Hr. cbn [fst snd tl].
  etransitivity;
    [apply (send_open _ _ _ (set_recvs sk recvs)); reflexivity|].
  unfold with_sock, after, login_block; simpl. now rewrite <- !app_assoc.
Qed.

Lemma recv_closed self w :
  sock self = None ->
  recv (self, w)
  = (Raise (AttributeError "'NoneType' object has no such attribute"), (self, w)).
Proof.
  intros H. unfold recv, the_sock, bind, get_sock; simpl. now rewrite H.
Qed.

(** The steps of a session leave the connections to come alone. *)
Lemma preserves_net_recv rest :
  preserves (fun s : AMIClient * world => net (snd s) = rest) recv.
Proof.
  intros [c v] Hv. destruct (sock c) as [k|] eqn:Hk.
  - now rewrite (recv_open c v k Hk).
  - now rewrite (recv_closed c v Hk).
Qed.

Lemma preserves_net_send rest cmd :
  preserves (fun s : AMIClient * world => net (snd s) = rest) (_send cmd).
Proof.
  intros [c v] Hv. destruct (sock c) as [k|] eqn:Hk.
  - now rewrite (send_open c v cmd k Hk).
  - now rewrite (send_closed c v cmd Hk).
Qed.

Lemma preserves_net_read rest :
  preserves (fun s : AMIClient * world => net (snd s) = rest) _read_until_blank.
Proof.
  intros [c v] Hv. destruct (sock c) as [k|] eqn:Hk.
  - rewrite (read_until_blank_outcome c v k Hk).
    now destruct (read_outcome (sock_recvs k) []) as [[r l] n].
  - now rewrite (read_closed c v Hk).
Qed.

End ConnectMore.

(** X4. The banner is read once and not looked at: on an accepted
    connection whose first [recv] delivers data, [connect] gives the same
    outcome, the same final client and the same effects whatever that data
    is, the empty read included. *)
Theorem connect_ignores_banner :
  forall (self : AMIClient) (w1 w2 : world) (sk1 sk2 : socket)
         (rest : list peer) (banner1 banner2 : string) (recvs : list recv_result),
    net w1 = Accepts sk1 :: rest ->
    net w2 = Accepts sk2 :: rest ->
    http w1 = http w2 -> trace w1 = trace w2 ->
    sock_recvs sk1 = RecvData banner1 :: recvs ->
    sock_recvs sk2 = RecvData banner2 :: recvs ->
    sock_sends sk1 = sock_sends sk2 ->
    sock_close_error sk1 = sock_close_error sk2 ->
    connect (self, w1) = connect (self, w2).
Proof.
  intros self w1 w2 sk1 sk2 rest b1 b2 recvs Hn1 Hn2 Hh Ht Hr1 Hr2 Hs Hc.
  unfold connect. unfold bind at 1 3.
  rewrite (connect_login_banner self w1 sk1 rest b1 recvs Hn1 Hr1).
  rewrite (connect_login_banner self w2 sk2 rest b2 recvs Hn2 Hr2).
  assert (E : set_recvs sk1 recvs = set_recvs sk2 recvs).
  { unfold set_recvs. now rewrite Hs, Hc. }
  now rewrite E, Hh, Ht.
Qed.

Lemma connect_ignores_banner_witness :
  connect (Sample.client None, Sample.world_with [Accepts Sample.good_socket] [])
  = connect (Sample.client None,
             Sample.world_with
               [Accepts (set_recvs Sample.good_socket
                           (RecvData EmptyString :: tl (sock_recvs Sample.good_socket)))]
               []).
Proof.
  exact (connect_ignores_banner (Sample.client None)
           (Sample.world_with [Accepts Sample.good_socket] [])
           (Sample.world_with
              [Accepts (set_recvs Sample.good_socket
                          (RecvData EmptyString
                           :: tl (sock_recvs Sample.good_socket)))] [])
           Sample.good_socket
           (set_recvs Sample.good_socket
              (RecvData EmptyString :: tl (sock_recvs Sample.good_socket)))
           [] Sample.banner EmptyString (tl (sock_recvs Sample.good_socket))
           eq_refl eq_refl eq_refl eq_refl eq_refl eq_refl eq_refl eq_refl).
Defined.

(** X5. The login is taken as accepted as soon as the response holds the
    bytes [Success] anywhere: when the login has been sent and the response
    read back contains them, [connect] returns normally, with the socket
    open and no further effect. *)
Theorem connect_accepts_any_response_with_success :
  forall (s s1 s2 : AMIClient * world) (response : string),
    connect_login s = (Ok tt, s1) ->
    _read_until_blank s1 = (Ok response, s2) ->
    is_substring "Success" response ->
    connect s = (Ok tt, s2) /\ sock_open s2.
Proof.
  intros s s1 s2 response H1 H2 H3.
  assert (E : connect s = (Ok tt, s2)).
  { rewrite (connect_checks s s1 s2 response H1 H2).
    unfold check_login. apply contains_spec in H3. now rewrite H3. }
  split; [exact E | now apply (connect_ok_open s)].
Qed.

Lemma connect_accepts_any_response_with_success_witness :
  let reply := "Response: Error" ++ Py.CRLF
               ++ "Message: Success is not for you" ++ Py.BLANK in
  fst (connect (Sample.client None,
                Sample.world_with
                  [Accepts {| sock_recvs := [RecvData Sample.banner; RecvData reply];
                              sock_sends := []; sock_close_error := None |}] []))
  = Ok tt.
Proof.
  intros reply.
  refine (f_equal fst
            (proj1 (connect_accepts_any_response_with_success
                      (Sample.client None,
                       Sample.world_with
                         [Accepts {| sock_recvs := [RecvData Sample.banner;
                                                    RecvData reply];
                                     sock_sends := [];
                                     sock_close_error := None |}] [])
                      _ _ reply _ _ _))).
  - vm_compute. reflexivity.
  - vm_compute. reflexivity.
  - apply contains_spec. vm_compute. reflexivity.
Defined.

(** A connection attempt that fails: its exception leaves [connect] as it
    is, before the socket field is assigned. *)
Lemma connect_refused self w e rest :
  net w = Refuses e :: rest ->
  connect (self, w)
  = (Raise e,
     (self, {| net := rest; http := http w;
               trace := (trace w ++ [EvConnect (host self) (port self)])%list |})).
Proof.
  intros H. unfold connect. apply bind_raise. unfold connect_login.
  unfold bind at 1, get_self at 1; simpl.
  unfold bind at 1, in_world at 1, create_connection at 1; simpl.
  now rewrite H.
Qed.

(** X6. What [connect] leaves behind. When the connection attempt fails,
    [connect] raises the exception of the attempt, whatever its class (an
    [OSError] of the network, or the [OverflowError] or [UnicodeError] an
    address is rejected with), the client is left as it was (a fresh one
    keeps its socket field [None]) and nothing is read or sent. When the
    connection is accepted the socket field holds the socket from then on,
    whether [connect] returns or raises: a failure of the banner read, of
    the login or of its check leaves the socket open, for [close] to
    release. *)
Theorem connect_socket_state :
  forall (self : AMIClient) (w : world),
    (forall e rest,
        net w = Refuses e :: rest ->
        connect (self, w)
        = (Raise e,
           (self, {| net := rest; http := http w;
                     trace := (trace w ++ [EvConnect (host self) (port self)])%list |})))
    /\ ((forall sk rest, net w <> Accepts sk :: rest) ->
        exists e,
          connect (self, w)
          = (Raise e,
             (self, {| net := tl (net w); http := http w;
                       trace := (trace w ++ [EvConnect (host self) (port self)])%list |})))
    /\ (forall sk rest,
          net w = Accepts sk :: rest ->
          sock_open (snd (connect (self, w)))
          /\ net (snd (snd (connect (self, w)))) = rest).
Proof.
  intros self w. split; [|split].
  - intros e rest H. now apply connect_refused.
  - intros H. destruct (connect_login_refused self w H) as [e E].
    exists e. unfold connect. now rewrite (bind_raise _ _ _ _ _ E).
  - intros sk rest H. split; [now apply (connect_opens self w sk rest)|].
    unfold connect.
    change (net (snd (snd ((connect_login ;; response <- _read_until_blank ;;
                            check_login response) (self, w)))) = rest)
      with ((fun s : AMIClient * world => net (snd s) = rest)
              (snd ((connect_login ;; response <- _read_until_blank ;;
                     check_login response) (self, w)))).
    apply bind_from.
    + rewrite (connect_login_accepts self w sk rest H).
      apply (preserves_bind (fun s : AMIClient * world => net (snd s) = rest));
        [apply preserves_net_recv | intros _; apply preserves_net_send | reflexivity].
    + intros _. apply preserves_bind; [apply preserves_net_read | intros r].
      unfold check_login. destruct (negb _); [apply preserves_raise | apply preserves_ret].
Qed.

Lemma connect_socket_state_witness :
  connect (Sample.client None,
           Sample.world_with
             [Refuses (OverflowError "Python int too large to convert to C long")] [])
  = (Raise (OverflowError "Python int too large to convert to C long"),
     (Sample.client None,
      after (Sample.world_with [] []) [EvConnect "pbx" 5038]))
  /\ (exists e,
        connect (Sample.client None, Sample.world_with [] [])
        = (Raise e,
           (Sample.client None,
            after (Sample.world_with [] []) [EvConnect "pbx" 5038])))
  /\ sock_open
       (snd (connect (Sample.client None,
                      Sample.world_with [Accepts Sample.rejecting_socket] []))).
Proof.
  destruct (connect_socket_state (Sample.client None)
              (Sample.world_with
                 [Refuses (OverflowError "Python int too large to convert to C long")]
                 [])) as [H1 _].
  destruct (connect_socket_state (Sample.client None) (Sample.world_with [] []))
    as (_ & H2 & _).
  destruct (connect_socket_state (Sample.client None)
              (Sample.world_with [Accepts Sample.rejecting_socket] []))
    as (_ & _ & H3).
  split; [|split].
  - exact (H1 _ [] eq_refl).
  - apply H2. intros sk rest. discriminate.
  - exact (proj1 (H3 Sample.rejecting_socket [] eq_refl)).
Defined.

Section OriginateMore.

Lemma sendall_keeps_recvs (sk : socket) :
  sock_recvs (snd (sock_sendall sk)) = sock_recvs sk.
Proof. unfold sock_sendall. now destruct (sock_sends sk) as [|[e|] l]. Qed.

(** With nothing scripted for its sends, a socket sends and stays as it is. *)
Lemma sendall_unscripted (sk : socket) :
  sock_sends sk = [] -> sock_sendall sk = (Ok tt, sk).
Proof. intros H. unfold sock_sendall. rewrite H. now destruct sk; simpl in *; subst. Qed.

End OriginateMore.

(** X7. [originate_simple] is fire and forget. On an open socket whose send
    succeeds it sends the Originate block, reads one response up to its
    stopping chunk and returns normally whatever the response says, an
    error reply and the empty read of a closed connection included. When
    the send fails it raises the error of the send and reads nothing. *)
Theorem originate_does_not_inspect_response :
  forall (channel exten context : string) (priority : Z) (callerid : string)
         (timeout_ms : Z) (self : AMIClient) (w : world) (sk : socket),
    sock self = Some sk ->
    let block := _ami_line (originate_action channel exten context priority
                                             callerid timeout_ms) in
    (forall pre data post,
        fst (sock_sendall sk) = Ok tt ->
        sock_recvs sk = (map RecvData pre ++ RecvData data :: post)%list ->
        Forall chunk_goes_on pre -> chunk_stops data ->
        originate_simple channel exten context priority callerid timeout_ms (self, w)
        = (Ok tt,
           (with_sock self (Some (set_recvs (snd (sock_sendall sk)) post)),
            after w (EvSend block :: EvSetTimeout 10
                     :: repeat EvRecv (S (List.length pre))))))
    /\ (forall e,
          fst (sock_sendall sk) = Raise e ->
          originate_simple channel exten context priority callerid timeout_ms (self, w)
          = (Raise e,
             (with_sock self (Some (snd (sock_sendall sk))), after w [EvSend block]))).
Proof.
  intros channel exten context priority callerid timeout_ms self w sk Hs block.
  split.
  - intros pre data post Hsend Hr Hpre Hd. unfold originate_simple.
    unfold bind at 1. rewrite (send_open self w _ sk Hs), Hsend.
    unfold bind at 1.
    rewrite (read_until_blank_run
               (with_sock self (Some (snd (sock_sendall sk)))) _
               (snd (sock_sendall sk)) pre data post eq_refl
               (eq_trans (sendall_keeps_recvs sk) Hr) Hpre Hd).
    unfold ret, with_sock; simpl. now rewrite after_after.
  - intros e Hsend. unfold originate_simple.
    unfold bind at 1. now rewrite (send_open self w _ sk Hs), Hsend.
Qed.

Lemma originate_does_not_inspect_response_witness :
  fst (originate_simple "PJSIP/1000" "1000" "from-internal" 1 "NTFY Bridge <7777>"
         30000
         (Sample.client (Some {| sock_recvs := [RecvData Sample.failure];
                                 sock_sends := []; sock_close_error := None |}),
          Sample.world0))
  = Ok tt
  /\ fst (originate_simple "PJSIP/1000" "1000" "from-internal" 1
            "NTFY Bridge <7777>" 30000
            (Sample.client (Some Sample.broken_socket), Sample.world0))
     = Raise (OSError BrokenPipeError).
Proof.
  split.
  - refine (f_equal fst
              (proj1 (originate_does_not_inspect_response
                        "PJSIP/1000" "1000" "from-internal" 1 "NTFY Bridge <7777>"
                        30000
                        (Sample.client
                           (Some {| sock_recvs := [RecvData Sample.failure];
                                    sock_sends := []; sock_close_error := None |}))
                        Sample.world0
                        {| sock_recvs := [RecvData Sample.failure];
                           sock_sends := []; sock_close_error := None |} eq_refl)
                 [] Sample.failure [] eq_refl eq_refl (Forall_nil _) _)).
    right. vm_compute. reflexivity.
  - exact (f_equal fst
             (proj2 (originate_does_not_inspect_response
                       "PJSIP/1000" "1000" "from-internal" 1 "NTFY Bridge <7777>"
                       30000 (Sample.client (Some Sample.broken_socket))
                       Sample.world0 Sample.broken_socket eq_refl)
                (OSError BrokenPipeError) eq_refl)).
Defined.

Section HappyPath.

Variable cfg : config.

Lemma originate_run channel exten context priority callerid timeout_ms
    self w sk pre data post :
  sock self = Some sk ->
  fst (sock_sendall sk) = Ok tt ->
  sock_recvs sk = (map RecvData pre ++ RecvData data :: post)%list ->
  Forall chunk_goes_on pre -> chunk_stops data ->
  originate_simple channel exten context priority callerid timeout_ms (self, w)
  = (Ok tt,
     (with_sock self (Some (set_recvs (snd (sock_sendall sk)) post)),
      after w (EvSend (_ami_line (originate_action channel exten context priority
                                                   callerid timeout_ms))
               :: EvSetTimeout 10 :: repeat EvRecv (S (List.length pre))))).
Proof.
  intros Hs Hsend Hr Hpre Hd. unfold originate_simple.
  unfold bind at 1. rewrite (send_open self w _ sk Hs), Hsend.
  unfold bind at 1.
  rewrite (read_until_blank_run
             (with_sock self (Some (snd (sock_sendall sk)))) _
             (snd (sock_sendall sk)) pre data post eq_refl
             (eq_trans (sendall_keeps_recvs sk) Hr) Hpre Hd).
  unfold ret, with_sock; simpl. now rewrite after_after.
Qed.

(** A session with a peer that answers both commands. *)
Lemma dispatch_answered self w sk rest banner pre1 reply1 pre2 reply2 more :
  net w = Accepts sk :: rest ->
  sock_sends sk = [] ->
  sock_recvs sk
  = (RecvData banner
     :: map RecvData pre1 ++ RecvData reply1
     :: map RecvData pre2 ++ RecvData reply2 :: more)%list ->
  Forall chunk_goes_on pre1 -> chunk_stops reply1 ->
  is_substring "Success" (Py.join EmptyString pre1 ++ reply1) ->
  Forall chunk_goes_on pre2 -> chunk_stops reply2 ->
  dispatch cfg (self, w)
  = (Ok tt,
     (with_sock self None,
      {| net := rest; http := http w;
         trace :=
           (trace w
            ++ [EvConnect (host self) (port self); EvRecv;
                EvSend (login_block self); EvSetTimeout 10]
            ++ repeat EvRecv (S (List.length pre1))
            ++ [EvSend (originate_block cfg); EvSetTimeout 10]
            ++ repeat EvRecv (S (List.length pre2))
            ++ [EvLog INFO LogOriginateSent; EvSend logoff_block;
                EvSockClose])%list |})).
Proof.
  intros Hn Hsends Hr Hpre1 Hd1 Hok Hpre2 Hd2.
  set (R2 := (map RecvData pre2 ++ RecvData reply2 :: more)%list) in *.
  set (R1 := (map RecvData pre1 ++ RecvData reply1 :: R2)%list) in *.
  assert (Hlogin := connect_login_banner self w sk rest banner R1 Hn Hr).
  rewrite (sendall_unscripted (set_recvs sk R1) Hsends) in Hlogin.
  cbn [fst snd] in Hlogin.
  assert (Hread := read_until_blank_run
            (with_sock self (Some (set_recvs sk R1)))
            {| net := rest; http := http w;
               trace := (trace w ++ [EvConnect (host self) (port self); EvRecv;
                                     EvSend (login_block self)])%list |}
            (set_recvs sk R1) pre1 reply1 R2 eq_refl eq_refl Hpre1 Hd1).
  assert (Hconnect := connect_checks _ _ _ _ Hlogin Hread).
  unfold check_login in Hconnect.
  apply contains_spec in Hok. rewrite Hok in Hconnect. cbn [negb] in Hconnect.
  unfold ret in Hconnect.
  assert (Horig := originate_run (DIAL_STRING cfg) (EXTENSION cfg) (CONTEXT cfg)
            (PRIORITY cfg) (CALLERID cfg) (TIMEOUT_MS cfg)
            (with_sock self (Some (set_recvs sk R2)))
            (after
               {| net := rest; http := http w;
                  trace := (trace w ++ [EvConnect (host self) (port self); EvRecv;
                                        EvSend (login_block self)])%list |}
               (EvSetTimeout 10 :: repeat EvRecv (S (Datatypes.length pre1))))
            (set_recvs sk R2) pre2 reply2 more eq_refl
            (f_equal fst (sendall_unscripted (set_recvs sk R2) Hsends))
            eq_refl Hpre2 Hd2).
  rewrite (sendall_unscripted (set_recvs sk R2) Hsends) in Horig.
  cbn [snd] in Horig.
  rewrite dispatch_eq. unfold dispatch_call.
  rewrite (bind_ok _ _ _ _ _ Hconnect).
  rewrite (bind_ok _ _ _ tt _ Horig).
  unfold in_world, log, emit. cbn [fst snd].
  match goal with |- context [close (?c, ?v)] =>
    rewrite (close_open c v (set_recvs sk more) eq_refl)
  end.
  cbn [snd]. f_equal. f_equal. unfold after. cbn [net http trace].
  f_equal. unfold originate_block. rewrite <- !app_assoc. reflexivity.
Qed.

End HappyPath.

(** X8. The whole of a successful dispatch. For an event of integer
    priority [p >= 4], when the server accepts the connection, sends a
    banner, answers the login with a response that holds [Success], answers
    the Originate with any response, and no send fails, the handler returns
    normally and its effects are, in this order: the two log records, the
    connection attempt, the banner read, the Login block, the reads of the
    login response, the Originate block built from the configuration, the
    reads of its response, the log record of the success, the Logoff block
    and the closing of the socket. One connection is used, and a failure of
    the socket's [close] changes nothing of this. *)
Theorem high_priority_event_runs_one_full_session :
  forall (cfg : config) (items : list (string * json)) (p : Z) (w : world)
         (sk : socket) (rest : list peer) (banner : string)
         (pre1 : list string) (reply1 : string)
         (pre2 : list string) (reply2 : string) (more : list recv_result),
    dict_lookup "priority" items = Some (JInt p) ->
    4 <= p ->
    net w = Accepts sk :: rest ->
    sock_sends sk = [] ->
    sock_recvs sk
    = (RecvData banner
       :: map RecvData pre1 ++ RecvData reply1
       :: map RecvData pre2 ++ RecvData reply2 :: more)%list ->
    Forall chunk_goes_on pre1 -> chunk_stops reply1 ->
    is_substring "Success" (Py.join EmptyString pre1 ++ reply1) ->
    Forall chunk_goes_on pre2 -> chunk_stops reply2 ->
    handle_ntfy_msg cfg (JObj items) w
    = (Ok tt,
       {| net := rest; http := http w;
          trace :=
            (trace w
             ++ [summary p items; EvLog INFO LogHighPriority;
                 EvConnect (AMI_HOST cfg) (AMI_PORT cfg); EvRecv;
                 EvSend (login_block (fresh_client cfg)); EvSetTimeout 10]
             ++ repeat EvRecv (S (List.length pre1))
             ++ [EvSend (originate_block cfg); EvSetTimeout 10]
             ++ repeat EvRecv (S (List.length pre2))
             ++ [EvLog INFO LogOriginateSent; EvSend logoff_block;
                 EvSockClose])%list |}).
Proof.
  intros cfg items p w sk rest banner pre1 reply1 pre2 reply2 more
         Hp Hge Hn Hsends Hr Hpre1 Hd1 Hok Hpre2 Hd2.
  rewrite (handle_high cfg items p w Hp Hge).
  unfold with_object.
  rewrite (dispatch_answered cfg (fresh_client cfg)
             (after w [summary p items; EvLog INFO LogHighPriority])
             sk rest banner pre1 reply1 pre2 reply2 more
             Hn Hsends Hr Hpre1 Hd1 Hok Hpre2 Hd2).
  cbn [snd]. f_equal. f_equal. unfold after. cbn [trace].
  rewrite <- !app_assoc. reflexivity.
Qed.

Lemma high_priority_event_runs_one_full_session_witness :
  handle_ntfy_msg Sample.cfg (JObj [("priority", JInt 5)])
    (Sample.world_with [Accepts Sample.good_socket] [])
  = (Ok tt,
     after (Sample.world_with [] [])
       [summary 5 [("priority", JInt 5)]; EvLog INFO LogHighPriority;
        EvConnect "pbx" 5038; EvRecv;
        EvSend (login_block (fresh_client Sample.cfg)); EvSetTimeout 10; EvRecv;
        EvSend (originate_block Sample.cfg); EvSetTimeout 10; EvRecv;
        EvLog INFO LogOriginateSent; EvSend logoff_block; EvSockClose]).
Proof.
  refine (high_priority_event_runs_one_full_session
            Sample.cfg [("priority", JInt 5)] 5
            (Sample.world_with [Accepts Sample.good_socket] [])
            Sample.good_socket [] Sample.banner [] Sample.success [] Sample.queued []
            eq_refl _ eq_refl eq_refl eq_refl (Forall_nil _) _ _ (Forall_nil _) _).
  - lia.
  - right. vm_compute. reflexivity.
  - apply contains_spec. vm_compute. reflexivity.
  - right. vm_compute. reflexivity.
Defined.

Section SessionShape.

Variable cfg : config.

(** What [m] has emitted stays in front, with the property of each effect. *)
Lemma bind_emits_from {S A B} (tr : S -> list event) (P : event -> Prop)
    (m : ST S A) (k : A -> ST S B) s t0 :
  (exists more, tr (snd (m s)) = (t0 ++ more)%list /\ Forall P more) ->
  (forall a, emits_only tr P (k a)) ->
  exists more, tr (snd (bind m k s)) = (t0 ++ more)%list /\ Forall P more.
Proof.
  intros (l1 & E1 & F1) Hk. unfold bind. destruct (m s) as [[a|e] s1]; simpl in *.
  - destruct (Hk a s1) as (l2 & E2 & F2). exists (l1 ++ l2)%list.
    rewrite E2, E1, app_assoc. split; [reflexivity | now apply Forall_app].
  - now exists l1.
Qed.

(** On an accepted connection, the call of a dispatch is the connection
    attempt followed by reads, sends, timeouts and log records. *)
Lemma dispatch_call_accepted self w sk rest :
  net w = Accepts sk :: rest ->
  exists inner,
    wtrace (snd (dispatch_call cfg (self, w)))
    = (trace w ++ EvConnect (host self) (port self) :: inner)%list
    /\ Forall inner_event inner.
Proof.
  intros Hn.
  destruct (bind_emits_from wtrace inner_event connect
              (fun _ => originate_simple (DIAL_STRING cfg) (EXTENSION cfg)
                          (CONTEXT cfg) (PRIORITY cfg) (CALLERID cfg)
                          (TIMEOUT_MS cfg) ;;
                        in_world (log INFO LogOriginateSent))
              (self, w) (trace w ++ [EvConnect (host self) (port self)])%list)
    as (inner & E & F).
  - unfold connect. apply bind_emits_from.
    + rewrite (connect_login_accepts self w sk rest Hn).
      destruct (emits_bind wtrace inner_event recv
                  (fun _ => _send (login_action (username self) (secret self)))
                  (emits_recv inner_event I)
                  (fun _ => emits_send inner_event _ I)
                  (with_sock self (Some sk),
                   {| net := rest; http := http w;
                      trace := (trace w ++ [EvConnect (host self) (port self)])%list |}))
        as (l & El & Fl).
      exists l. split; [exact El | exact Fl].
    + intros _. apply emits_bind;
        [apply emits_read_until_blank; exact I | intros r].
      unfold check_login. destruct (negb _); [apply emits_raise | apply emits_ret].
  - intros _. apply emits_bind; [apply emits_originate_simple; exact I | intros _].
    apply emits_in_world, emits_emit. exact I.
  - exists inner. split; [|exact F]. unfold dispatch_call. rewrite E.
    now rewrite <- app_assoc.
Qed.

Lemma count_where_app P l1 l2 :
  count_where P (l1 ++ l2) = (count_where P l1 + count_where P l2)%nat.
Proof. unfold count_where. now rewrite filter_app, length_app. Qed.

Lemma count_inner_connect inner :
  Forall inner_event inner -> count_where is_connect inner = 0%nat.
Proof.
  unfold count_where. induction 1 as [|ev l Hev F IH]; [reflexivity|].
  destruct ev; simpl in *; try exact IH; contradiction.
Qed.

Lemma count_inner_close inner :
  Forall inner_event inner -> count_where is_sock_close inner = 0%nat.
Proof.
  unfold count_where. induction 1 as [|ev l Hev F IH]; [reflexivity|].
  destruct ev; simpl in *; try exact IH; contradiction.
Qed.

(** The effects of a dispatch on a fresh client. *)
Lemma dispatch_shape self w :
  sock self = None ->
  exists inner,
    Forall inner_event inner
    /\ wtrace (snd (dispatch cfg (self, w)))
       = (trace w ++ EvConnect (host self) (port self) :: inner
          ++ (if accepted w then [EvSockClose] else []))%list.
Proof.
  intros Hs. rewrite dispatch_eq. cbn [snd]. unfold accepted.
  destruct (net w) as [|[e|sk] rest] eqn:Hn.
  - destruct (connect_login_refused self w) as [e E]; [rewrite Hn; discriminate|].
    unfold dispatch_call, connect.
    rewrite (bind_raise _ _ _ _ _ (bind_raise _ _ _ _ _ E)). cbn [fst snd].
    rewrite (close_closed self _ Hs). cbn [snd]. unfold wtrace, after; cbn [snd trace].
    exists [EvLog ERROR (LogOriginateFailed e)].
    split; [repeat constructor|]. now rewrite <- app_assoc.
  - destruct (connect_login_refused self w) as [e' E]; [rewrite Hn; discriminate|].
    unfold dispatch_call, connect.
    rewrite (bind_raise _ _ _ _ _ (bind_raise _ _ _ _ _ E)). cbn [fst snd].
    rewrite (close_closed self _ Hs). cbn [snd]. unfold wtrace, after; cbn [snd trace].
    exists [EvLog ERROR (LogOriginateFailed e')].
    split; [repeat constructor|]. now rewrite <- app_assoc.
  - destruct (dispatch_call_accepted self w sk rest Hn) as (inner & E & F).
    assert (Ho : sock_open (snd (dispatch_call cfg (self, w)))).
    { unfold dispatch_call. apply bind_from.
      - now apply (connect_opens self w sk rest).
      - intros _. apply preserves_bind; [apply preserves_open_originate|].
        intros _. apply preserves_open_in_world. }
    destruct (dispatch_call cfg (self, w)) as [[u|e] [self1 w1]];
      destruct (open_inv _ Ho) as [sk1 Hs1]; cbn [fst snd] in *;
      unfold wtrace in E; cbn [snd] in E.
    + rewrite (close_open self1 w1 sk1 Hs1). unfold wtrace, after; cbn [snd trace].
      exists (inner ++ [EvSend logoff_block])%list.
      split; [apply Forall_app; split; [exact F | repeat constructor]|].
      rewrite E. now rewrite <- !app_assoc.
    + rewrite (close_open self1 _ sk1 Hs1). unfold wtrace, after; cbn [snd trace].
      exists (inner ++ [EvLog ERROR (LogOriginateFailed e); EvSend logoff_block])%list.
      split; [apply Forall_app; split; [exact F | repeat constructor]|].
      rewrite E. now rewrite <- !app_assoc.
Qed.

End SessionShape.

(** X9. The shape of every dispatch, whatever the network does. For an
    event of integer priority [p >= 4] the effects of the handler are the
    two log records, one connection attempt, then only reads, sends,
    timeouts and log records, and at the very end the closing of the
    socket if and only if the connection was accepted. So one event makes
    exactly one connection attempt, and a socket that was opened is closed
    exactly once and is never left open. *)
Theorem dispatch_opens_one_connection_and_closes_it :
  forall (cfg : config) (items : list (string * json)) (p : Z) (w : world),
    dict_lookup "priority" items = Some (JInt p) ->
    4 <= p ->
    exists w' inner,
      handle_ntfy_msg cfg (JObj items) w = (Ok tt, w')
      /\ Forall inner_event inner
      /\ performed w w'
         = (summary p items :: EvLog INFO LogHighPriority
            :: EvConnect (AMI_HOST cfg) (AMI_PORT cfg) :: inner
            ++ (if accepted w then [EvSockClose] else []))%list
      /\ count_where is_connect (performed w w') = 1%nat
      /\ count_where is_sock_close (performed w w')
         = (if accepted w then 1 else 0)%nat.
Proof.
  intros cfg items p w Hp Hge.
  rewrite (handle_high cfg items p w Hp Hge), with_object_dispatch.
  destruct (dispatch_shape cfg (fresh_client cfg)
              (after w [summary p items; EvLog INFO LogHighPriority]) eq_refl)
    as (inner & F & E).
  eexists. exists inner. split; [reflexivity|]. split; [exact F|].
  assert (Hperf : performed w
                    (snd (snd (dispatch cfg
                                 (fresh_client cfg,
                                  after w [summary p items;
                                           EvLog INFO LogHighPriority]))))
                  = (summary p items :: EvLog INFO LogHighPriority
                     :: EvConnect (AMI_HOST cfg) (AMI_PORT cfg) :: inner
                     ++ (if accepted w then [EvSockClose] else []))%list).
  { apply performed_app. unfold wtrace in E. rewrite E.
    unfold after, accepted; cbn [trace net]. now rewrite <- app_assoc. }
  split; [exact Hperf|]. rewrite Hperf.
  change (summary p items :: EvLog INFO LogHighPriority
          :: EvConnect (AMI_HOST cfg) (AMI_PORT cfg) :: inner
          ++ (if accepted w then [EvSockClose] else []))%list
    with ([summary p items; EvLog INFO LogHighPriority;
           EvConnect (AMI_HOST cfg) (AMI_PORT cfg)]
          ++ inner ++ (if accepted w then [EvSockClose] else []))%list.
  rewrite !count_where_app, (count_inner_connect inner F), (count_inner_close inner F).
  split; destruct (accepted w); reflexivity.
Qed.

Lemma dispatch_opens_one_connection_and_closes_it_witness :
  exists w',
    handle_ntfy_msg Sample.cfg (JObj [("priority", JInt 5)])
      (Sample.world_with [Accepts Sample.rejecting_socket] []) = (Ok tt, w')
    /\ count_where is_sock_close
         (performed (Sample.world_with [Accepts Sample.rejecting_socket] []) w')
       = 1%nat.
Proof.
  destruct (dispatch_opens_one_connection_and_closes_it
              Sample.cfg [("priority", JInt 5)] 5
              (Sample.world_with [Accepts Sample.rejecting_socket] []) eq_refl)
    as (w' & inner & H1 & _ & _ & _ & H5); [lia|].
  exists w'. split; [exact H1 | exact H5].
Defined.

(* ===================================================================== *)
(** * Further properties: the handler *)
(* ===================================================================== *)

Section HandlerMore.

Variable cfg : config.

(** The handler on a priority that [int()] converts. *)
Lemma handle_coerced items v p w :
  dict_lookup "priority" items = Some v -> py_int v = Ok p ->
  handle_ntfy_msg cfg (JObj items) w
  = if p >=? 4
    then with_object (fresh_client cfg) (dispatch cfg)
           (after w [summary p items; EvLog INFO LogHighPriority])
    else (Ok tt, after w [summary p items]).
Proof.
  intros H Hv. unfold handle_ntfy_msg, bind, lift_result, msg_get; simpl.
  rewrite H; simpl. rewrite Hv. destruct (p >=? 4); [|reflexivity].
  unfold after; simpl. now rewrite <- app_assoc.
Qed.

Lemma quot_at_least_4 (q : Q) :
  4 <= Z.quot (Qnum q) (Zpos (Qden q)) <-> (4 <= q)%Q.
Proof.
  destruct q as [n d]. unfold Qle; simpl. rewrite Z.mul_1_r.
  destruct (Z_lt_le_dec n 0) as [Hn|Hn].
  - split; intros H; [|lia].
    assert (K : Z.quot n (Zpos d) <= 0).
    { apply Z.quot_le_upper_bound; lia. }
    lia.
  - rewrite Z.quot_div_nonneg by lia. split; intros H.
    + pose proof (Z.mul_div_le n (Zpos d) ltac:(lia)). nia.
    + apply Z.div_le_lower_bound; lia.
Qed.

End HandlerMore.

(** X10. The priority goes through [int()]: two messages whose priorities
    are values that [int()] converts to the same integer (a numeric text, a
    float, a boolean, an integer) and whose titles and bodies agree are
    handled alike, with the same outcome and the same effects. A boolean
    never reaches the threshold, and a finite float reaches it exactly
    when it is at least 4, its fraction being cut off. *)
Theorem priority_is_coerced_by_int :
  forall (cfg : config) (items1 items2 : list (string * json)) (v1 v2 : json)
         (p : Z) (w : world),
    dict_lookup "priority" items1 = Some v1 ->
    dict_lookup "priority" items2 = Some v2 ->
    py_int v1 = Ok p ->
    py_int v2 = Ok p ->
    dict_lookup "title" items1 = dict_lookup "title" items2 ->
    dict_lookup "message" items1 = dict_lookup "message" items2 ->
    handle_ntfy_msg cfg (JObj items1) w = handle_ntfy_msg cfg (JObj items2) w
    /\ (forall b, v1 = JBool b -> p <= 3)
    /\ (forall q, v1 = JFloat (FFinite q) -> (4 <= p <-> (4 <= q)%Q)).
Proof.
  intros cfg items1 items2 v1 v2 p w H1 H2 Hv1 Hv2 Ht Hm. split; [|split].
  - rewrite (handle_coerced cfg items1 v1 p w H1 Hv1).
    rewrite (handle_coerced cfg items2 v2 p w H2 Hv2).
    unfold summary, item_or. now rewrite Ht, Hm.
  - intros b ->. simpl in Hv1. injection Hv1 as <-. destruct b; lia.
  - intros q ->. simpl in Hv1. injection Hv1 as <-. apply quot_at_least_4.
Qed.

Lemma priority_is_coerced_by_int_witness :
  handle_ntfy_msg Sample.cfg (JObj [("priority", JStr " 5 ")]) Sample.world0
  = handle_ntfy_msg Sample.cfg (JObj [("priority", JInt 5)]) Sample.world0.
Proof.
  refine (proj1 (priority_is_coerced_by_int Sample.cfg
                   [("priority", JStr " 5 ")] [("priority", JInt 5)]
                   (JStr " 5 ") (JInt 5) 5 Sample.world0
                   eq_refl eq_refl _ eq_refl eq_refl eq_refl)).
  vm_compute. reflexivity.
Defined.

(** X11. A frame whose JSON is not an object (a number, a text, a list,
    [null]) has no [get]: the handler raises [AttributeError] with no
    effect, the exception leaves the stream loop at that line, and the
    lines after it are not processed. *)
Theorem non_object_message_raises_attribute_error :
  forall (cfg : config) (decode : string -> string) (loads : string -> result json)
         (line : string) (rest : list string) (msg : json) (w : world),
    (forall items, msg <> JObj items) ->
    Py.startswith (Py.strip (decode line)) "data: " = true ->
    loads (Py.drop 6 (Py.strip (decode line))) = Ok msg ->
    exists text,
      handle_ntfy_msg cfg msg w = (Raise (AttributeError text), w)
      /\ process_lines cfg decode loads (line :: rest) w
         = (Raise (AttributeError text), w).
Proof.
  intros cfg decode loads line rest msg w Hm H1 H2.
  destruct (handle_not_object cfg msg w Hm) as [text E].
  exists text. split; [exact E|].
  apply process_lines_raise.
  now rewrite (process_line_json cfg decode loads line msg w H1 H2).
Qed.

Lemma non_object_message_raises_attribute_error_witness :
  exists text,
    handle_ntfy_msg Sample.cfg (JArr [JInt 5]) Sample.world0
    = (Raise (AttributeError text), Sample.world0).
Proof.
  destruct (non_object_message_raises_attribute_error
              Sample.cfg Sample.decode (fun _ => Ok (JArr [JInt 5]))
              "data: [5]" [] (JArr [JInt 5]) Sample.world0)
    as (text & E & _).
  - intros items. discriminate.
  - reflexivity.
  - reflexivity.
  - exists text. exact E.
Defined.

(* ===================================================================== *)
(** * Further properties: the subscriber and the loop *)
(* ===================================================================== *)

Section SubscriberMore.

Variable cfg : config.
Variable decode : string -> string.
Variable loads : string -> result json.

Lemma met_head w a rest : http w = a :: rest -> met w = a.
Proof. intros H. unfold met. now rewrite H. Qed.

Lemma process_lines_app l1 l2 w :
  process_lines cfg decode loads (l1 ++ l2) w
  = (process_lines cfg decode loads l1 ;; process_lines cfg decode loads l2) w.
Proof.
  revert w. induction l1 as [|line l1 IH]; intros w; [reflexivity|].
  simpl. unfold bind.
  destruct (process_line cfg decode loads line w) as [[u|e] w1]; [|reflexivity].
  rewrite IH. reflexivity.
Qed.

Lemma process_lines_filter lines w :
  process_lines cfg decode loads (filter (is_data_line decode) lines) w
  = process_lines cfg decode loads lines w.
Proof.
  revert w. induction lines as [|line lines IH]; intros w; [reflexivity|].
  simpl. unfold is_data_line at 1.
  destruct (Py.startswith (Py.strip (decode line)) "data: ") eqn:E.
  - simpl. unfold bind.
    destruct (process_line cfg decode loads line w) as [[u|e] w1]; [apply IH | reflexivity].
  - rewrite IH. unfold bind.
    now rewrite (process_line_skip cfg decode loads line w E).
Qed.

Lemma count_session_sleep more :
  Forall session_event more -> count_where is_sleep more = 0%nat.
Proof.
  unfold count_where. induction 1 as [|ev l Hev F IH]; [reflexivity|].
  destruct ev; simpl in *; try exact IH; contradiction.
Qed.

End SubscriberMore.

(** X12. A subscription that fails before the stream is read handles no
    line. When the request itself fails, its exception leaves
    [subscribe_ntfy]; when the response has a status of 400 or more,
    [raise_for_status] raises a client error although the body may carry
    frames. In both cases the only effects are the log record and the
    request, no session is opened, and for the bad status the loop waits 3
    before it subscribes again. *)
Theorem failed_subscription_handles_no_line :
  forall (cfg : config) (decode : string -> string) (loads : string -> result json)
         (w : world) (rest : list http_attempt),
    (forall e,
        http w = GetFails e :: rest ->
        subscribe_ntfy cfg decode loads w = (Raise e, subscribed cfg w))
    /\ (forall status lines ending,
          http w = Response status lines ending :: rest ->
          400 <= status ->
          subscribe_ntfy cfg decode loads w
          = (Raise (ClientError "ClientResponseError"), subscribed cfg w)
          /\ main_turn cfg decode loads w
             = (Ok tt,
                after (subscribed cfg w)
                  [EvLog WARNING (LogSseError (ClientError "ClientResponseError"));
                   EvSleep 3]))
    /\ net (subscribed cfg w) = net w
    /\ performed w (subscribed cfg w)
       = [EvLog INFO (LogSubscribing (sse_url cfg)); EvHttpGet (sse_url cfg)].
Proof.
  intros cfg decode loads w rest. split; [|split; [|split]].
  - intros e H. rewrite subscribe_eq, (met_head w _ rest H). reflexivity.
  - intros status lines ending H Hs.
    assert (E : subscribe_ntfy cfg decode loads w
                = (Raise (ClientError "ClientResponseError"), subscribed cfg w)).
    { rewrite subscribe_eq, (met_head w _ rest H). simpl.
      unfold raise_for_status, bind.
      destruct (Z.leb_spec 400 status) as [_|K]; [reflexivity | lia]. }
    split; [exact E|]. now rewrite main_turn_eq, E.
  - reflexivity.
  - apply performed_app. reflexivity.
Qed.

Lemma failed_subscription_handles_no_line_witness :
  main_turn Sample.cfg Sample.decode Sample.loads
    (Sample.world_with [Accepts Sample.good_socket]
       [Response 503 [Sample.frame "5"] EndOfStream])
  = (Ok tt,
     after (subscribed Sample.cfg
              (Sample.world_with [Accepts Sample.good_socket]
                 [Response 503 [Sample.frame "5"] EndOfStream]))
       [EvLog WARNING (LogSseError (ClientError "ClientResponseError"));
        EvSleep 3]).
Proof.
  destruct (failed_subscription_handles_no_line
              Sample.cfg Sample.decode Sample.loads
              (Sample.world_with [Accepts Sample.good_socket]
                 [Response 503 [Sample.frame "5"] EndOfStream]) [])
    as (_ & H & _).
  refine (proj2 (H 503 [Sample.frame "5"] EndOfStream eq_refl _)). lia.
Defined.

(** X13. When a stream ends cleanly (the server closes a response whose
    status is below 400 and every line was processed), [subscribe_ntfy]
    returns and the loop subscribes again at once: the turn logs nothing
    more and waits for nothing, so a server that keeps closing the stream
    is asked again without any pause. *)
Theorem clean_end_of_stream_is_retried_without_waiting :
  forall (cfg : config) (decode : string -> string) (loads : string -> result json)
         (w w1 : world) (status : Z) (lines : list string)
         (rest : list http_attempt),
    http w = Response status lines EndOfStream :: rest ->
    status < 400 ->
    process_lines cfg decode loads lines (subscribed cfg w) = (Ok tt, w1) ->
    subscribe_ntfy cfg decode loads w = (Ok tt, w1)
    /\ main_turn cfg decode loads w = (Ok tt, w1)
    /\ count_where is_sleep (performed w w1) = 0%nat
    /\ (forall turns,
          main cfg decode loads (S turns) w = main cfg decode loads turns w1).
Proof.
  intros cfg decode loads w w1 status lines rest H Hs Hl.
  assert (E : subscribe_ntfy cfg decode loads w = (Ok tt, w1)).
  { rewrite subscribe_eq, (met_head w _ rest H). simpl.
    unfold raise_for_status.
    destruct (Z.leb_spec 400 status) as [K|_]; [lia|].
    unfold bind at 1. unfold ret at 1. unfold bind. now rewrite Hl. }
  assert (T : main_turn cfg decode loads w = (Ok tt, w1))
    by now rewrite main_turn_eq, E.
  split; [exact E|]. split; [exact T|]. split.
  - destruct (emits_process_lines cfg decode loads lines (subscribed cfg w))
      as (more & Em & Fm).
    rewrite Hl in Em. simpl in Em.
    rewrite (performed_app w w1
               ([EvLog INFO (LogSubscribing (sse_url cfg)); EvHttpGet (sse_url cfg)]
                ++ more)).
    + rewrite count_where_app, (count_session_sleep more Fm). reflexivity.
    + rewrite Em. now rewrite <- app_assoc.
  - intros turns. simpl. unfold bind. now rewrite T.
Qed.

Lemma clean_end_of_stream_is_retried_without_waiting_witness :
  main_turn Sample.cfg Sample.decode Sample.loads
    (Sample.world_with [] [Response 200 [Sample.frame "2"] EndOfStream])
  = (Ok tt,
     after (Sample.world_with [] [])
       [EvLog INFO (LogSubscribing (sse_url Sample.cfg));
        EvHttpGet (sse_url Sample.cfg);
        summary 2 [("priority", JInt 2)]]).
Proof.
  refine (proj1 (proj2
            (clean_end_of_stream_is_retried_without_waiting
               Sample.cfg Sample.decode Sample.loads
               (Sample.world_with [] [Response 200 [Sample.frame "2"] EndOfStream])
               _ 200 [Sample.frame "2"] [] eq_refl _ _))).
  - lia.
  - vm_compute. reflexivity.
Defined.

(** X14. The stream loop handles the lines one after the other, in the
    order received: processing a stream cut in two parts is processing the
    first part and then, if nothing was raised, the second. Lines that are
    not data frames (comments, keep-alives, event names, blank lines) are
    invisible: dropping them from the stream changes neither the outcome
    nor the effects. *)
Theorem stream_is_processed_in_order_and_non_data_lines_are_invisible :
  forall (cfg : config) (decode : string -> string) (loads : string -> result json)
         (lines1 lines2 : list string) (w : world),
    process_lines cfg decode loads (lines1 ++ lines2) w
    = (process_lines cfg decode loads lines1 ;;
       process_lines cfg decode loads lines2) w
    /\ process_lines cfg decode loads
         (filter (is_data_line decode) (lines1 ++ lines2)) w
       = process_lines cfg decode loads (lines1 ++ lines2) w
    /\ (forall e w1,
          process_lines cfg decode loads lines1 w = (Raise e, w1) ->
          process_lines cfg decode loads (lines1 ++ lines2) w = (Raise e, w1)).
Proof.
  intros cfg decode loads lines1 lines2 w. split; [|split].
  - apply process_lines_app.
  - apply process_lines_filter.
  - intros e w1 H. rewrite process_lines_app. unfold bind. now rewrite H.
Qed.

Lemma stream_is_processed_in_order_and_non_data_lines_are_invisible_witness :
  process_lines Sample.cfg Sample.decode Sample.loads
    ([Sample.frame (Sample.quoted "high")] ++ [Sample.frame "5"]) Sample.world0
  = (Raise (ValueError "invalid literal for int() with base 10"), Sample.world0).
Proof.
  refine (proj2 (proj2
            (stream_is_processed_in_order_and_non_data_lines_are_invisible
               Sample.cfg Sample.decode Sample.loads
               [Sample.frame (Sample.quoted "high")] [Sample.frame "5"]
               Sample.world0)) _ _ _).
  vm_compute. reflexivity.
Defined.

(* ===================================================================== *)
(** * Further properties: the stream URL *)
(* ===================================================================== *)

Section UrlMore.

Lemma rev_acc_append (a b acc : string) :
  Py.rev_acc (a ++ b) acc = Py.rev_acc b (Py.rev_acc a acc).
Proof. revert acc. induction a as [|c a IH]; intros acc; simpl; [reflexivity | apply IH]. Qed.

Lemma rev_acc_acc (a acc : string) : Py.rev_acc a acc = Py.rev a ++ acc.
Proof.
  unfold Py.rev. revert acc. induction a as [|c a IH]; intros acc; simpl; [reflexivity|].
  rewrite (IH (String c acc)), (IH (String c EmptyString)).
  now rewrite append_assoc.
Qed.

Lemma rev_append (a b : string) : Py.rev (a ++ b) = Py.rev b ++ Py.rev a.
Proof. unfold Py.rev at 1. now rewrite rev_acc_append, rev_acc_acc. Qed.

Lemma rev_involutive (a : string) : Py.rev (Py.rev a) = a.
Proof.
  induction a as [|c a IH]; [reflexivity|].
  change (String c a) with (String c EmptyString ++ a) at 1.
  rewrite rev_append, rev_append, IH. reflexivity.
Qed.

Lemma rstrip_slash_append (s : string) :
  Py.rstrip_slash (s ++ "/") = Py.rstrip_slash s.
Proof. unfold Py.rstrip_slash. now rewrite rev_append. Qed.

Lemma rstrip_slash_rev_head (r : string) :
  forall t, Py.rstrip_slash_rev r <> String "/" t.
Proof.
  induction r as [|c r IH]; intros t; simpl; [discriminate|].
  destruct (Ascii.ascii_dec c "/") as [->|n].
  - apply IH.
  - destruct c as [[] [] [] [] [] [] [] []]; try (intros E; injection E as E1 _; congruence);
      try apply IH.
Qed.

(** What [rstrip("/")] returns does not end with a slash. *)
Lemma rstrip_slash_no_trailing (s t : string) :
  Py.rstrip_slash s <> t ++ "/".
Proof.
  unfold Py.rstrip_slash. intros E.
  apply (f_equal Py.rev) in E. rewrite rev_involutive, rev_append in E.
  exact (rstrip_slash_rev_head _ _ E).
Qed.

(** A text without trailing slash is left as it is. *)
Lemma rstrip_slash_id (s : string) :
  (forall t, s <> t ++ "/") -> Py.rstrip_slash s = s.
Proof.
  intros H. unfold Py.rstrip_slash.
  destruct (Py.rev s) as [|c r] eqn:E.
  - simpl. rewrite <- E. apply rev_involutive.
  - assert (Hc : c <> "/"%char).
    { intros ->. apply (H (Py.rev r)).
      rewrite <- (rev_involutive s), E.
      change (String "/" r) with (String "/" EmptyString ++ r).
      now rewrite rev_append. }
    assert (K : Py.rstrip_slash_rev (String c r) = String c r).
    { destruct c as [[] [] [] [] [] [] [] []]; try reflexivity. now elim Hc. }
    rewrite K, <- E. apply rev_involutive.
Qed.

End UrlMore.

(** X15. Trailing slashes of [NTFY_URL] do not count: the stream URL is the
    base without its trailing slashes, one slash, the topic and [/sse]; a
    base with one more slash at its end gives the same URL, the base part
    never ends with a slash, and a base without trailing slash is used as
    it is. *)
Theorem sse_url_ignores_trailing_slashes :
  forall (cfg : config) (base : string),
    sse_url (with_url cfg (base ++ "/")) = sse_url (with_url cfg base)
    /\ sse_url (with_url cfg base)
       = Py.rstrip_slash base ++ "/" ++ NTFY_TOPIC cfg ++ "/sse"
    /\ (forall t, Py.rstrip_slash base <> t ++ "/")
    /\ ((forall t, base <> t ++ "/") ->
        sse_url (with_url cfg base) = base ++ "/" ++ NTFY_TOPIC cfg ++ "/sse").
Proof.
  intros cfg base. unfold sse_url, with_url; simpl. split; [|split; [|split]].
  - now rewrite rstrip_slash_append.
  - reflexivity.
  - apply rstrip_slash_no_trailing.
  - intros H. now rewrite (rstrip_slash_id base H).
Qed.

Lemma sse_url_ignores_trailing_slashes_witness :
  sse_url (with_url Sample.cfg "https://ntfy.sh") = "https://ntfy.sh/alerts/sse".
Proof.
  refine (proj2 (proj2 (proj2
            (sse_url_ignores_trailing_slashes Sample.cfg "https://ntfy.sh"))) _).
  intros t E. apply (f_equal Py.rev) in E. rewrite rev_append in E.
  vm_compute in E. discriminate E.
Defined.

(* ===================================================================== *)
(** * Further properties: the framing of a command block *)
(* ===================================================================== *)

Section FramingMore.

Lemma has_char_append c (a b : string) :
  Py.has_char c (a ++ b) = Py.has_char c a || Py.has_char c b.
Proof.
  induction a as [|d a IH]; simpl; [reflexivity|]. now rewrite IH, orb_assoc.
Qed.

Lemma length_append (a b : string) :
  String.length (a ++ b) = (String.length a + String.length b)%nat.
Proof. induction a as [|c a IH]; simpl; [reflexivity | now rewrite IH]. Qed.

(** In [l ++ r], with no carriage return in [l], a carriage return lies in
    [r]. *)
Lemma first_CR_after (l : string) :
  forall r a t,
    no_CR l ->
    l ++ r = a ++ String Py.CR t ->
    exists a', a = l ++ a' /\ r = a' ++ String Py.CR t.
Proof.
  induction l as [|c l IH]; intros r a t Hl E.
  - now exists a.
  - unfold no_CR in Hl. simpl in Hl. apply orb_false_iff in Hl.
    destruct Hl as [Hc Hl]. destruct a as [|d a]; simpl in E.
    + injection E as E1 _. subst c. vm_compute in Hc. discriminate Hc.
    + injection E as -> E. destruct (IH r a t Hl E) as (a' & -> & Hr).
      now exists a'.
Qed.

Lemma render_field_no_CR k v :
  no_CR k -> no_CR (format_value v) -> no_CR (render_field (k, v)).
Proof.
  unfold no_CR, render_field; simpl. intros Hk Hv.
  rewrite has_char_append, Hk. simpl. exact Hv.
Qed.

Lemma render_field_starts k v :
  no_CR k ->
  exists c rest, render_field (k, v) = String c rest /\ Ascii.eqb Py.CR c = false.
Proof.
  unfold no_CR, render_field; simpl. intros Hk. destruct k as [|c k]; simpl.
  - now exists ":"%char, (String " " (format_value v)).
  - simpl in Hk. apply orb_false_iff in Hk. destruct Hk as [Hc _].
    now exists c, (k ++ ": " ++ format_value v).
Qed.

Lemma ami_line_single kv :
  _ami_line [kv] = render_field kv ++ Py.CRLF ++ Py.CRLF.
Proof. reflexivity. Qed.

(** The terminator is found at the end of the block only. *)
Lemma terminator_only_at_end (d : cmd_dict) :
  (forall k v, In (k, v) d -> no_CR k /\ no_CR (format_value v)) ->
  forall a b, _ami_line d = a ++ Py.BLANK ++ b -> b = EmptyString.
Proof.
  induction d as [|[k v] d IH]; intros Hd a b E.
  - apply (f_equal String.length) in E. rewrite !length_append in E.
    simpl in E. destruct b; [reflexivity | simpl in E; lia].
  - destruct (Hd k v (or_introl eq_refl)) as [Hk Hv].
    pose proof (render_field_no_CR k v Hk Hv) as Hl.
    assert (Hd' : forall k' v', In (k', v') d -> no_CR k' /\ no_CR (format_value v'))
      by (intros k' v' Hin; apply Hd; now right).
    destruct d as [|[k' v'] d].
    + rewrite ami_line_single in E.
      destruct (first_CR_after _ _ a _ Hl E) as (a' & -> & E').
      apply (f_equal String.length) in E'. rewrite !length_append in E'.
      simpl in E'. destruct b; [reflexivity | simpl in E'; lia].
    + rewrite ami_line_cons in E.
      destruct (first_CR_after _ _ a _ Hl E) as (a' & -> & E').
      destruct (Hd' k' v' (or_introl eq_refl)) as [Hk' _].
      destruct (render_field_starts k' v' Hk') as (c & rest & Hc & Hne).
      assert (Hb : exists tail, _ami_line ((k', v') :: d) = String c tail).
      { destruct d as [|kv'' d].
        - rewrite ami_line_single, Hc. now eexists.
        - rewrite ami_line_cons, Hc. now eexists. }
      destruct Hb as [tail Hb].
      destruct a' as [|x a']; simpl in E'.
      * injection E' as E'. rewrite Hb in E'. injection E' as E1 _.
        subst c. vm_compute in Hne. discriminate Hne.
      * injection E' as _ E'. destruct a' as [|y a']; simpl in E'.
        -- discriminate E'.
        -- injection E' as _ E'. exact (IH Hd' a' b E').
Qed.

(** A field of the dictionary is a line of the block. *)
Lemma field_is_a_line (d : cmd_dict) kv :
  In kv d ->
  exists before after_it,
    _ami_line d = before ++ render_field kv ++ Py.CRLF ++ after_it.
Proof.
  induction d as [|kv0 d IH]; intros Hin; [contradiction|].
  destruct Hin as [->|Hin].
  - exists EmptyString. destruct d as [|kv' d].
    + exists Py.CRLF. apply ami_line_single.
    + exists (_ami_line (kv' :: d)). apply ami_line_cons.
  - destruct d as [|kv' d]; [contradiction|].
    destruct (IH Hin) as (before & after_it & E).
    exists (render_field kv0 ++ Py.CRLF ++ before), after_it.
    rewrite ami_line_cons, E, !append_assoc. reflexivity.
Qed.

End FramingMore.

(** X17. The framing of a command block. When no key and no value holds a
    carriage return, the terminator [\r\n\r\n] occurs in the block at its
    very end and nowhere else, so the block is one block for the reader at
    the other end; the empty dictionary gives the bare terminator. Nothing
    is escaped: a value that holds the terminator ends the block early,
    with bytes left after it. *)
Theorem command_block_has_one_terminator :
  forall (d : cmd_dict),
    ((forall k v, In (k, v) d -> no_CR k /\ no_CR (format_value v)) ->
       forall a b, _ami_line d = a ++ Py.BLANK ++ b -> b = EmptyString)
    /\ (exists a, _ami_line d = a ++ Py.BLANK)
    /\ _ami_line [] = Py.BLANK
    /\ (forall k v,
          In (k, v) d ->
          is_substring Py.BLANK (format_value v) ->
          exists a b, _ami_line d = a ++ Py.BLANK ++ b /\ b <> EmptyString).
Proof.
  intros d. split; [apply terminator_only_at_end|]. split; [|split].
  - now exists (Py.join Py.CRLF (map render_field d)).
  - reflexivity.
  - intros k v Hin (x & y & Hv).
    destruct (field_is_a_line d (k, v) Hin) as (before & after_it & E).
    exists (before ++ k ++ ": " ++ x), (y ++ Py.CRLF ++ after_it). split.
    + rewrite E. unfold render_field; simpl fst; simpl snd. rewrite Hv.
      rewrite !append_assoc. reflexivity.
    + intros K. apply (f_equal String.length) in K.
      rewrite !length_append in K. simpl in K. lia.
Qed.

Lemma command_block_has_one_terminator_witness :
  (exists a, _ami_line (login_action "ntfybridge" "secret") = a ++ Py.BLANK)
  /\ (forall a b,
        _ami_line (login_action "ntfybridge" "secret") = a ++ Py.BLANK ++ b ->
        b = EmptyString).
Proof.
  split;
    [exact (proj1 (proj2 (command_block_has_one_terminator
                            (login_action "ntfybridge" "secret"))))|].
  refine (proj1 (command_block_has_one_terminator
                   (login_action "ntfybridge" "secret")) _).
  intros k v Hin. simpl in Hin.
  repeat (destruct Hin as [Hin|Hin];
          [injection Hin as <- <-; split; reflexivity|]).
  contradiction.
Defined.

(* ===================================================================== *)
(** * Further properties: the authorization header *)
(* ===================================================================== *)

Section Base64.

Lemma b64_char_facts (n : nat) :
  (n < 64)%nat ->
  b64_value (b64_char n) = Some n
  /\ Ascii.eqb (b64_char n) "=" = false
  /\ Ascii.eqb Py.CR (b64_char n) = false
  /\ Ascii.eqb Py.LF (b64_char n) = false.
Proof.
  intros H.
  do 64 (destruct n as [|n]; [repeat split; reflexivity|]).
  lia.
Qed.

Lemma div_high (h l k : nat) : (l < k)%nat -> ((h * k + l) / k = h)%nat.
Proof.
  intros H. rewrite Nat.div_add_l by lia. rewrite (Nat.div_small l k H). lia.
Qed.

Lemma mod_low (h l k : nat) : (l < k)%nat -> ((h * k + l) mod k = l)%nat.
Proof.
  intros H. rewrite Nat.add_comm, Nat.Div0.mod_add. now apply Nat.mod_small.
Qed.

Lemma byte_bound (x : ascii) : (nat_of_ascii x < 256)%nat.
Proof. apply nat_ascii_bounded. Qed.

Lemma sextets (a b c : nat) :
  (a < 256)%nat -> (b < 256)%nat -> (c < 256)%nat ->
  (a / 4 < 64 /\ (a mod 4) * 16 + b / 16 < 64
   /\ (b mod 16) * 4 + c / 64 < 64 /\ c mod 64 < 64
   /\ (a / 4) * 4 + ((a mod 4) * 16 + b / 16) / 16 = a
   /\ (((a mod 4) * 16 + b / 16) mod 16) * 16 + ((b mod 16) * 4 + c / 64) / 4 = b
   /\ (((b mod 16) * 4 + c / 64) mod 4) * 64 + c mod 64 = c)%nat.
Proof.
  intros Ha Hb Hc.
  assert (A4 : (a / 4 < 64)%nat) by (apply Nat.Div0.div_lt_upper_bound; lia).
  assert (B16 : (b / 16 < 16)%nat) by (apply Nat.Div0.div_lt_upper_bound; lia).
  assert (C64 : (c / 64 < 4)%nat) by (apply Nat.Div0.div_lt_upper_bound; lia).
  pose proof (Nat.mod_upper_bound a 4 ltac:(lia)).
  pose proof (Nat.mod_upper_bound b 16 ltac:(lia)).
  pose proof (Nat.mod_upper_bound c 64 ltac:(lia)).
  pose proof (Nat.div_mod_eq a 4). pose proof (Nat.div_mod_eq b 16).
  pose proof (Nat.div_mod_eq c 64).
  rewrite (div_high (a mod 4) (b / 16) 16 B16).
  rewrite (mod_low (a mod 4) (b / 16) 16 B16).
  rewrite (div_high (b mod 16) (c / 64) 4 C64).
  rewrite (mod_low (b mod 16) (c / 64) 4 C64).
  repeat split; lia.
Qed.

Lemma string_ind3 (P : string -> Prop) :
  P EmptyString ->
  (forall x, P (String x EmptyString)) ->
  (forall x y, P (String x (String y EmptyString))) ->
  (forall x y z r, P r -> P (String x (String y (String z r)))) ->
  forall s, P s.
Proof.
  intros H0 H1 H2 H3 s.
  assert (K : P s /\ (forall x, P (String x s))
              /\ (forall x y, P (String x (String y s)))).
  { induction s as [|c s (I1 & I2 & I3)].
    - repeat split; auto.
    - split; [apply I2|]. split; [intros x; apply I3|].
      intros x y. now apply H3. }
  apply K.
Qed.

Lemma b64_roundtrip (s : string) : b64decode (b64encode s) = Some s.
Proof.
  induction s as [|x|x y|x y z r IH] using string_ind3.
  - reflexivity.
  - destruct (sextets (nat_of_ascii x) 0 0 (byte_bound x)) as
      (S1 & S2 & _ & _ & E1 & _); try lia.
    rewrite Nat.add_0_r in S2, E1. change (0 / 16)%nat with 0%nat in *.
    rewrite ?Nat.add_0_r in *.
    cbn [b64encode b64decode].
    rewrite (proj1 (b64_char_facts _ S1)), (proj1 (b64_char_facts _ S2)).
    rewrite E1, ascii_nat_embedding. reflexivity.
  - destruct (sextets (nat_of_ascii x) (nat_of_ascii y) 0
                (byte_bound x) (byte_bound y)) as
      (S1 & S2 & S3 & _ & E1 & E2 & _); try lia.
    change (0 / 64)%nat with 0%nat in *. rewrite ?Nat.add_0_r in *.
    cbn [b64encode b64decode].
    rewrite (proj1 (b64_char_facts _ S1)), (proj1 (b64_char_facts _ S2)).
    rewrite (proj1 (proj2 (b64_char_facts _ S3))), (proj1 (b64_char_facts _ S3)).
    rewrite E1, E2, !ascii_nat_embedding. reflexivity.
  - destruct (sextets (nat_of_ascii x) (nat_of_ascii y) (nat_of_ascii z)
                (byte_bound x) (byte_bound y) (byte_bound z)) as
      (S1 & S2 & S3 & S4 & E1 & E2 & E3).
    cbn [b64encode b64decode].
    rewrite (proj1 (b64_char_facts _ S1)), (proj1 (b64_char_facts _ S2)).
    rewrite (proj1 (proj2 (b64_char_facts _ S3))), (proj1 (b64_char_facts _ S3)).
    rewrite (proj1 (proj2 (b64_char_facts _ S4))), (proj1 (b64_char_facts _ S4)).
    rewrite IH. cbn [option_map].
    rewrite E1, E2, E3, !ascii_nat_embedding. reflexivity.
Qed.

Lemma b64encode_injective (s t : string) : b64encode s = b64encode t -> s = t.
Proof.
  intros E. apply (f_equal b64decode) in E. rewrite !b64_roundtrip in E.
  now injection E.
Qed.

Lemma b64encode_length (s : string) :
  String.length (b64encode s) = (4 * ((String.length s + 2) / 3))%nat.
Proof.
  induction s as [|x|x y|x y z r IH] using string_ind3; try reflexivity.
  cbn [b64encode String.length]. rewrite IH.
  replace (S (S (S (String.length r))) + 2)%nat
    with (1 * 3 + (String.length r + 2))%nat by lia.
  rewrite Nat.div_add_l by lia. lia.
Qed.

Lemma b64encode_no_break (s : string) :
  Py.has_char Py.CR (b64encode s) = false
  /\ Py.has_char Py.LF (b64encode s) = false.
Proof.
  induction s as [|x|x y|x y z r IH] using string_ind3.
  - split; reflexivity.
  - destruct (sextets (nat_of_ascii x) 0 0 (byte_bound x)) as
      (S1 & S2 & _); try lia.
    change (0 / 16)%nat with 0%nat in *. rewrite ?Nat.add_0_r in *.
    cbn [b64encode Py.has_char].
    destruct (b64_char_facts _ S1) as (_ & _ & C1 & L1).
    destruct (b64_char_facts _ S2) as (_ & _ & C2 & L2).
    rewrite C1, C2, L1, L2. split; reflexivity.
  - destruct (sextets (nat_of_ascii x) (nat_of_ascii y) 0
                (byte_bound x) (byte_bound y)) as (S1 & S2 & S3 & _); try lia.
    change (0 / 64)%nat with 0%nat in *. rewrite ?Nat.add_0_r in *.
    cbn [b64encode Py.has_char].
    destruct (b64_char_facts _ S1) as (_ & _ & C1 & L1).
    destruct (b64_char_facts _ S2) as (_ & _ & C2 & L2).
    destruct (b64_char_facts _ S3) as (_ & _ & C3 & L3).
    rewrite C1, C2, C3, L1, L2, L3. split; reflexivity.
  - destruct (sextets (nat_of_ascii x) (nat_of_ascii y) (nat_of_ascii z)
                (byte_bound x) (byte_bound y) (byte_bound z)) as
      (S1 & S2 & S3 & S4 & _).
    cbn [b64encode Py.has_char].
    destruct (b64_char_facts _ S1) as (_ & _ & C1 & L1).
    destruct (b64_char_facts _ S2) as (_ & _ & C2 & L2).
    destruct (b64_char_facts _ S3) as (_ & _ & C3 & L3).
    destruct (b64_char_facts _ S4) as (_ & _ & C4 & L4).
    rewrite C1, C2, C3, C4, L1, L2, L3, L4. exact IH.
Qed.

End Base64.

(** X18. The authorization of the HTTP session. With [NTFY_AUTH] empty the
    session gets no header. Otherwise it gets the one header
    [Authorization], whose value is [Basic ] and the base64 text of
    [NTFY_AUTH], whatever its format: the text has four characters for
    every three bytes begun, decodes back to [NTFY_AUTH], and holds no
    carriage return or line feed even when [NTFY_AUTH] does. Two
    configurations that give the same headers have the same [NTFY_AUTH]. *)
Theorem authorization_header_is_basic_base64 :
  forall (cfg : config),
    (NTFY_AUTH cfg = EmptyString -> ntfy_session_headers cfg = [])
    /\ (NTFY_AUTH cfg <> EmptyString ->
        ntfy_session_headers cfg
        = [("Authorization", "Basic " ++ b64encode (NTFY_AUTH cfg))]
        /\ b64decode (b64encode (NTFY_AUTH cfg)) = Some (NTFY_AUTH cfg)
        /\ String.length (b64encode (NTFY_AUTH cfg))
           = (4 * ((String.length (NTFY_AUTH cfg) + 2) / 3))%nat
        /\ Py.has_char Py.CR ("Basic " ++ b64encode (NTFY_AUTH cfg)) = false
        /\ Py.has_char Py.LF ("Basic " ++ b64encode (NTFY_AUTH cfg)) = false)
    /\ (forall cfg',
          ntfy_session_headers cfg = ntfy_session_headers cfg' ->
          NTFY_AUTH cfg = NTFY_AUTH cfg').
Proof.
  intros cfg. unfold ntfy_session_headers. split; [|split].
  - intros ->. reflexivity.
  - intros H. destruct (String.eqb_spec (NTFY_AUTH cfg) EmptyString) as [E|_];
      [contradiction|].
    split; [reflexivity|]. split; [apply b64_roundtrip|].
    split; [apply b64encode_length|].
    destruct (b64encode_no_break (NTFY_AUTH cfg)) as [C L].
    rewrite !has_char_append, C, L. split; reflexivity.
  - intros cfg'.
    destruct (String.eqb_spec (NTFY_AUTH cfg) EmptyString) as [E|_];
      destruct (String.eqb_spec (NTFY_AUTH cfg') EmptyString) as [E'|_];
      intros H; try discriminate H.
    + now rewrite E, E'.
    + injection H as H. now apply b64encode_injective.
Qed.

Lemma authorization_header_is_basic_base64_witness :
  ntfy_session_headers (with_url Sample.cfg "https://ntfy.sh") = []
  /\ b64decode "dXNlcjpwYXNz" = Some "user:pass".
Proof.
  destruct (authorization_header_is_basic_base64
              (with_url Sample.cfg "https://ntfy.sh")) as [H1 _].
  split; [exact (H1 eq_refl)|].
  pose (cfg := {| NTFY_URL := "https://ntfy.sh"; NTFY_TOPIC := "alerts";
                  NTFY_AUTH := "user:pass"; EXTENSION := "1000";
                  CALLERID := "NTFY Bridge <7777>"; AMI_HOST := "pbx";
                  AMI_PORT := 5038; AMI_USER := "ntfybridge";
                  AMI_PASS := "secret"; CHANNEL_TECH := "PJSIP";
                  DIAL_STRING := "PJSIP/1000"; CONTEXT := "from-internal";
                  PRIORITY := 1; TIMEOUT_MS := 30000 |}).
  destruct (authorization_header_is_basic_base64 cfg) as (_ & H2 & _).
  refine (proj1 (proj2 (H2 _))). discriminate.
Defined.
